(** * Post-processing of CTC lexicon-decoder hypotheses

    A shallow embedding of [asr4/recognizer_v1/runtime/w2l_decoder.py]
    (class [W2lKenLMDecoder]): token resolution, trie construction, decoder
    options, word-piece assembly, the frame-span scan and the conversion of
    frame runs into time intervals.

    Conventions of the embedding.
    - Python [int]s that are list positions are [nat]; token ids and word ids
      coming out of the flashlight decoder are [Z] (word ids may be negative).
    - Python [float]s are IEEE binary64 values, i.e. Rocq's primitive [float].
    - Python [str]s are [string]s holding the UTF-8 encoding of the text;
      [str.split] knows every whitespace character of [str.isspace], on one,
      two or three bytes; [str.lower] is a parameter of the construction and
      acts on ASCII letters in the concrete runs.
    - A Python call that may raise returns a [result]. *)

From Stdlib Require Import ZArith List String Ascii Bool Lia PeanoNat Sorted.
From Stdlib Require Import PrimFloat Uint63.
Import ListNotations.

Set Implicit Arguments.
Set Warnings "-inexact-float".

(** ** Exceptions *)

Inductive exn : Type :=
| ValueError
| AssertionError
| IndexError.

Inductive result (A : Type) : Type :=
| Ok : A -> result A
| Raise : exn -> result A.

Arguments Ok {A} _.
Arguments Raise {A} _.

Definition bind {A B : Type} (m : result A) (k : A -> result B) : result B :=
  match m with
  | Ok a => k a
  | Raise e => Raise e
  end.

Notation "x <- m ;; k" := (bind m (fun x => k))
  (at level 61, m at next level, right associativity).

Definition raises {A : Type} (m : result A) : Prop := exists e, m = Raise e.

(** [assert cond] *)
Definition py_assert (cond : bool) : result unit :=
  if cond then Ok tt else Raise AssertionError.

(** A list comprehension whose element expression may raise. *)
Fixpoint mapM {A B : Type} (f : A -> result B) (l : list A) : result (list B) :=
  match l with
  | [] => Ok []
  | x :: l' => y <- f x ;; ys <- mapM f l' ;; Ok (y :: ys)
  end.

(** A [for] loop over a list, threading the loop-carried state. *)
Fixpoint foldM {A S : Type} (body : S -> A -> result S) (l : list A) (s : S)
  : result S :=
  match l with
  | [] => Ok s
  | x :: l' => s' <- body s x ;; foldM body l' s'
  end.

(** ** Python list and string primitives *)

Module Py.

(** [l[k]], with Python's negative indexing; [IndexError] out of range. *)
Definition getitem {A : Type} (l : list A) (k : Z) : result A :=
  let n := Z.of_nat (List.length l) in
  let k' := if (k <? 0)%Z then (k + n)%Z else k in
  if ((k' <? 0) || (n <=? k'))%Z then Raise IndexError
  else match nth_error l (Z.to_nat k') with
       | Some x => Ok x
       | None => Raise IndexError
       end.

(** [x in l] for a list of strings. *)
Definition contains (x : string) (l : list string) : bool :=
  existsb (String.eqb x) l.

(** [x in l] for a list of positions. *)
Definition contains_nat (x : nat) (l : list nat) : bool :=
  existsb (Nat.eqb x) l.

(** [l.index(x)]: the first position holding [x]; [ValueError] if none. *)
Fixpoint index (l : list string) (x : string) : result nat :=
  match l with
  | [] => Raise ValueError
  | y :: l' => if String.eqb y x then Ok 0
               else n <- index l' x ;; Ok (S n)
  end.

(** [sep.join(l)] *)
Fixpoint join (sep : string) (l : list string) : string :=
  match l with
  | [] => EmptyString
  | [x] => x
  | x :: l' => (x ++ sep ++ join sep l')%string
  end.

(** [s.replace(old, new)] for a one-character [old]. *)
Fixpoint replace (old : ascii) (new : string) (s : string) : string :=
  match s with
  | EmptyString => EmptyString
  | String c s' =>
      if Ascii.eqb c old then (new ++ replace old new s')%string
      else String c (replace old new s')
  end.

(** The whitespace characters of one byte: tab, line feed, vertical tab,
    form feed, carriage return, the four separators 0x1c..0x1f and the
    space. *)
Definition isspace (c : ascii) : bool :=
  let n := nat_of_ascii c in
  ((9 <=? n) && (n <=? 13)) || ((28 <=? n) && (n <=? 32)).

Definition flush (cur : string) : list string :=
  match cur with
  | EmptyString => []
  | _ => [cur]
  end.

(** The maximal runs of characters other than one-byte whitespace; [cur] is
    the word being read. *)
Fixpoint split_from (cur : string) (s : string) : list string :=
  match s with
  | EmptyString => flush cur
  | String c s' =>
      if isspace c then flush cur ++ split_from EmptyString s'
      else split_from (cur ++ String c EmptyString)%string s'
  end.

(** The whitespace characters of two bytes: U+0085 and U+00A0. *)
Definition isspace2 (c1 c2 : ascii) : bool :=
  (nat_of_ascii c1 =? 194)
  && ((nat_of_ascii c2 =? 133) || (nat_of_ascii c2 =? 160)).

(** The whitespace characters of three bytes: U+1680, U+2000..U+200A,
    U+2028, U+2029, U+202F, U+205F and U+3000. *)
Definition isspace3 (c1 c2 c3 : ascii) : bool :=
  let n1 := nat_of_ascii c1 in
  let n2 := nat_of_ascii c2 in
  let n3 := nat_of_ascii c3 in
  ((n1 =? 225) && (n2 =? 154) && (n3 =? 128))
  || ((n1 =? 226) && (n2 =? 128)
      && (((128 <=? n3) && (n3 <=? 138))
          || (n3 =? 168) || (n3 =? 169) || (n3 =? 175)))
  || ((n1 =? 226) && (n2 =? 129) && (n3 =? 159))
  || ((n1 =? 227) && (n2 =? 128) && (n3 =? 128)).

(** Every whitespace character of two or three bytes turned into a space.
    The bytes 194, 225, 226 and 227 only ever begin a character of UTF-8, so
    the sequences are recognised wherever they stand in the string. *)
Fixpoint narrow (s : string) : string :=
  match s with
  | EmptyString => EmptyString
  | String c1 s1 =>
      match s1 with
      | EmptyString => String c1 EmptyString
      | String c2 s2 =>
          if isspace2 c1 c2 then String " "%char (narrow s2)
          else
            match s2 with
            | EmptyString => String c1 (narrow s1)
            | String c3 s3 =>
                if isspace3 c1 c2 c3 then String " "%char (narrow s3)
                else String c1 (narrow s1)
            end
      end
  end.

(** [s.split()] with no argument: the maximal runs of characters that are
    not whitespace. *)
Definition split (s : string) : list string :=
  split_from EmptyString (narrow s).

(** [float(n)] for a list position [n] (exact below 2^53, rounded to
    nearest-even up to the 63 bits a position can take). *)
Definition float_of_int (n : nat) : float :=
  PrimFloat.of_uint63 (Uint63.of_Z (Z.of_nat n)).

End Py.

(** ** The flashlight objects the decoder holds

    The flashlight text library is an external collaborator.  Its objects are
    represented by what the decoder passes to them. *)

Definition LEXICON : Type := list (string * list (list string)).

Module Dictionary.
(** [get_entry] raises on an index that the dictionary does not hold. *)
Record t : Type := mk {
  get_index : string -> Z;
  get_entry : Z -> result string
}.
End Dictionary.

Module KenLM.
(** An n-gram scorer with an opaque state. *)
Record t : Type := mk {
  state : Type;
  start : bool -> state;
  score : state -> Z -> state * float
}.
End KenLM.

Inductive SmearingMode : Type := SmearNONE | SmearMAX | SmearLOGADD.

Module Trie.
(** The trie as the record of what was inserted into it. *)
Record t : Type := mk {
  maxChildren : nat;
  rootIdx : Z;
  entries : list (list nat * Z * float);
  smearing : option SmearingMode
}.

Definition new (maxChildren : nat) (rootIdx : Z) : t :=
  mk maxChildren rootIdx [] None.

Definition insert (trie : t) (indices : list nat) (label : Z) (score : float)
  : t :=
  mk (maxChildren trie) (rootIdx trie)
     (entries trie ++ [(indices, label, score)]) (smearing trie).

Definition smear (trie : t) (mode : SmearingMode) : t :=
  mk (maxChildren trie) (rootIdx trie) (entries trie) (Some mode).
End Trie.

Inductive CriterionType : Type := ASG | CTC | S2S.

Record LexiconDecoderOptions : Type := mkOptions {
  beam_size : Z;
  beam_size_token : Z;
  beam_threshold : float;
  lm_weight : float;
  word_score : float;
  unk_score : float;
  sil_score : float;
  log_add : bool;
  criterion_type : CriterionType
}.

Record LexiconDecoder : Type := mkLexiconDecoder {
  options : LexiconDecoderOptions;
  trie : Trie.t;
  lm : KenLM.t;
  sil_token_idx : Z;
  blank_token_idx : Z;
  unk_token_idx : Z;
  transitions : list float;
  is_token_lm : bool
}.

Module DecodeResult.
Record t : Type := mk { score : float; words : list Z; tokens : list Z }.
End DecodeResult.

(** ** The decoder instance ([self]) *)

Record W2lKenLMDecoder : Type := mkDecoder {
  _nbest : nat;
  frameSize : float;
  _subwords : bool;
  blank : Z;
  silence : Z;
  _wordDict : Dictionary.t;
  _decoder : LexiconDecoder
}.

(** ** Frame spans: [_getWordsFrames] *)

(** The loop-carried variables of [_getWordsFrames]. *)
Record scan : Type := mkScan {
  timesteps : list (list nat);
  wordFrames : list nat;
  wordFound : bool
}.

Definition scan0 : scan := mkScan [] [] false.

(** One iteration of [for i, tokenIdx in enumerate(tokenIdxs)]. *)
Definition _getWordsFrames_body (self : W2lKenLMDecoder) (tokenIdxs : list Z)
  (st : scan) (i : nat) (tokenIdx : Z) : result scan :=
  if (tokenIdx =? blank self)%Z then Ok st
  else
    prev <- Py.getitem tokenIdxs (Z.of_nat i - 1)%Z ;;
    if negb (tokenIdx =? prev)%Z && negb (tokenIdx =? silence self)%Z then
      Ok (mkScan (timesteps st) (wordFrames st ++ [i]) true)
    else if wordFound st && negb (tokenIdx =? silence self)%Z then
      Ok (mkScan (timesteps st) (wordFrames st ++ [i]) (wordFound st))
    else if (tokenIdx =? silence self)%Z && wordFound st then
      Ok (mkScan (timesteps st ++ [wordFrames st]) [] false)
    else Ok st.

(** The loop from frame [i] on, [rest] being [tokenIdxs[i:]]. *)
Fixpoint _getWordsFrames_loop (self : W2lKenLMDecoder) (tokenIdxs : list Z)
  (i : nat) (rest : list Z) (st : scan) : result scan :=
  match rest with
  | [] => Ok st
  | tokenIdx :: rest' =>
      st' <- _getWordsFrames_body self tokenIdxs st i tokenIdx ;;
      _getWordsFrames_loop self tokenIdxs (S i) rest' st'
  end.

Definition _getWordsFrames (self : W2lKenLMDecoder) (tokenIdxs : list Z)
  : result (list (list nat)) :=
  st <- _getWordsFrames_loop self tokenIdxs 0 tokenIdxs scan0 ;;
  Ok (timesteps st).

(** ** Time intervals *)

Definition _getFrameTime (self : W2lKenLMDecoder) (frame : nat) : float :=
  (Py.float_of_int frame * frameSize self)%float.

Definition _extendFramesToBoundaries (self : W2lKenLMDecoder)
  (begin_ end_ : float) : float * float :=
  (begin_, (end_ + frameSize self)%float).

Definition _getTimeInterval (self : W2lKenLMDecoder) (frames : list nat)
  : result (float * float) :=
  first <- Py.getitem frames 0%Z ;;
  final <- Py.getitem frames (Z.of_nat (List.length frames) - 1)%Z ;;
  Ok (_extendFramesToBoundaries self
        (_getFrameTime self first) (_getFrameTime self final)).

Definition _getWordTimestamps (self : W2lKenLMDecoder) (tokenIdxs : list Z)
  : result (list (list nat) * list (float * float)) :=
  wordFrames <- _getWordsFrames self tokenIdxs ;;
  timeIntervals <- mapM (_getTimeInterval self) wordFrames ;;
  Ok (wordFrames, timeIntervals).

(** ** Word strings: [process_word_piece] and [_postProcessHypothesis] *)

Definition underscore : ascii := "_"%char.
Definition space : string := " "%string.

Definition process_word_piece (words : list string) : list string :=
  Py.split (Py.replace underscore space (Py.join EmptyString words)).

(** [[self._wordDict.get_entry(x) for x in result.words if x >= 0]] *)
Definition word_entries (self : W2lKenLMDecoder) (res : DecodeResult.t)
  : result (list string) :=
  mapM (Dictionary.get_entry (_wordDict self))
       (filter (fun x => (0 <=? x)%Z) (DecodeResult.words res)).

(** The string appended to [words] for one result. *)
Definition hypothesis_words (self : W2lKenLMDecoder) (res : DecodeResult.t)
  : result string :=
  if negb (_subwords self) then
    entries <- word_entries self res ;;
    Ok (Py.join space entries)
  else
    entries <- word_entries self res ;;
    Ok (Py.join space (process_word_piece entries)).

(** The four lists [_postProcessHypothesis] builds and returns. *)
Record processed : Type := mkProcessed {
  out_words : list string;
  out_wordsFrames : list (list (list nat));
  out_scores : list float;
  out_timesteps : list (list (float * float))
}.

Definition _postProcessHypothesis_body (self : W2lKenLMDecoder)
  (acc : processed) (res : DecodeResult.t) : result processed :=
  w <- hypothesis_words self res ;;
  let words := out_words acc ++ [w] in
  let scores := out_scores acc ++ [DecodeResult.score res] in
  ft <- _getWordTimestamps self (DecodeResult.tokens res) ;;
  Ok (mkProcessed words (out_wordsFrames acc ++ [fst ft]) scores
        (out_timesteps acc ++ [snd ft])).

Definition _postProcessHypothesis (self : W2lKenLMDecoder)
  (hypotesis : list DecodeResult.t) : result processed :=
  foldM (_postProcessHypothesis_body self) hypotesis
        (mkProcessed [] [] [] []).

(** ** Construction: [__init__] and [_initializeTrie]

    The section variables are the collaborators outside this file:
    [str.lower], flashlight's [load_words] and [create_word_dict], and the
    [KenLM] constructor. *)

Section Construction.

Variable lower : string -> string.
Variable load_words : string -> LEXICON.
Variable create_word_dict : LEXICON -> Dictionary.t.
Variable KenLM_new : string -> Dictionary.t -> KenLM.t.

(** [[vocabulary.index(token.lower()) for token in spelling]] *)
Definition spelling_indices (vocabulary : list string)
  (spelling : list string) : result (list nat) :=
  mapM (fun token => Py.index vocabulary (lower token)) spelling.

(** Body of [for spelling in spellings]. *)
Definition _initializeTrie_spelling (vocabulary : list string)
  (unkWord : nat) (wordIdx : Z) (score : float)
  (trie : Trie.t) (spelling : list string) : result Trie.t :=
  spellingIdxs <- spelling_indices vocabulary spelling ;;
  _ <- py_assert (negb (Py.contains_nat unkWord spellingIdxs)) ;;
  Ok (Trie.insert trie spellingIdxs wordIdx score).

(** Body of [for word, spellings in lexicon.items()]. *)
Definition _initializeTrie_word (wordDict : Dictionary.t)
  (vocabulary : list string) (languageModel : KenLM.t)
  (startState : KenLM.state languageModel) (unkWord : nat)
  (trie : Trie.t) (entry : string * list (list string)) : result Trie.t :=
  let wordIdx := Dictionary.get_index wordDict (fst entry) in
  let score := snd (KenLM.score languageModel startState wordIdx) in
  foldM (_initializeTrie_spelling vocabulary unkWord wordIdx score)
        (snd entry) trie.

(** [self] has [silence] and [_wordDict] set when this is called. *)
Definition _initializeTrie (self_silence : Z) (self_wordDict : Dictionary.t)
  (vocabulary : list string) (languageModel : KenLM.t) (lexicon : LEXICON)
  : result Trie.t :=
  let trie := Trie.new (List.length vocabulary) self_silence in
  let startState := KenLM.start languageModel false in
  unkWord <- Py.index vocabulary "<unk>" ;;
  trie <- foldM (_initializeTrie_word self_wordDict vocabulary
                   languageModel startState unkWord) lexicon trie ;;
  Ok (Trie.smear trie SmearMAX).

(** Truth value of an [Optional[str]]. *)
Definition truthy (s : option string) : bool :=
  match s with
  | Some (String _ _) => true
  | _ => false
  end.

Definition resolve_blank (vocabulary : list string) : result nat :=
  if Py.contains "<ctc_blank>" vocabulary
  then Py.index vocabulary "<ctc_blank>"
  else Py.index vocabulary "<s>".

Definition resolve_silence (vocabulary : list string) : result nat :=
  if Py.contains "<sep>" vocabulary then Py.index vocabulary "<sep>"
  else if Py.contains "|" vocabulary then Py.index vocabulary "|"
  else Py.index vocabulary "</s>".

(** The three weights are annotated [Optional[float]]; they are taken here
    as floats, any binary64 value included. *)
Definition __init__ (vocabulary : list string)
  (lmFile lexicon : option string)
  (lm_weight word_score sil_score : float) (subwords : bool)
  : result W2lKenLMDecoder :=
  _ <- py_assert (truthy lmFile && truthy lexicon) ;;
  match lmFile, lexicon with
  | Some lmFile, Some lexicon =>
      blank <- resolve_blank vocabulary ;;
      silence <- resolve_silence vocabulary ;;
      let lexicon := load_words lexicon in
      let wordDict := create_word_dict lexicon in
      let lm := KenLM_new lmFile wordDict in
      trie <- _initializeTrie (Z.of_nat silence) wordDict vocabulary lm
                lexicon ;;
      let decoderOpts :=
        mkOptions 15 (Z.of_nat (List.length vocabulary)) 25.0
                  lm_weight word_score neg_infinity sil_score
                  false CTC in
      Ok (mkDecoder 1 0.02 subwords
            (Z.of_nat blank) (Z.of_nat silence) wordDict
            (mkLexiconDecoder decoderOpts trie lm
               (Z.of_nat silence) (Z.of_nat blank)
               (Dictionary.get_index wordDict "<unk>") [] false))
  | _, _ => Raise AssertionError
  end.

(** [self] is a decoder some constructor call returned. *)
Definition constructed (self : W2lKenLMDecoder) : Prop :=
  exists vocabulary lmFile lexicon lm_weight word_score sil_score subwords,
    __init__ vocabulary lmFile lexicon lm_weight word_score sil_score
             subwords = Ok self.

End Construction.

(** ** Concrete collaborators, for running the model *)

Module Fixture.

(** [str.lower] on ASCII letters. *)
Definition lower_char (c : ascii) : ascii :=
  let n := nat_of_ascii c in
  if (65 <=? n) && (n <=? 90) then ascii_of_nat (n + 32) else c.

Fixpoint lower (s : string) : string :=
  match s with
  | EmptyString => EmptyString
  | String c s' => String (lower_char c) (lower s')
  end.

(** Three lexicon files: a one-word lexicon spelled in small letters, the
    same spelled in capitals, and a lexicon of sub-word pieces. *)
Definition load_words (path : string) : LEXICON :=
  if String.eqb path "capitals.lexicon"
  then [("AB"%string, [["A"%string; "B"%string]])]
  else if String.eqb path "pieces.lexicon"
  then [("hel"%string, [["a"%string]]);
        ("lo_"%string, [["b"%string]]);
        ("wor"%string, [["a"%string; "b"%string]]);
        ("ld_"%string, [["b"%string; "a"%string]])]
  else [("ab"%string, [["a"%string; "b"%string]])].

Fixpoint position (l : list string) (x : string) (i : Z) : Z :=
  match l with
  | [] => (-1)%Z
  | y :: l' => if String.eqb y x then i else position l' x (i + 1)%Z
  end.

(** Words numbered in lexicon order, the unknown word last. *)
Definition create_word_dict (lexicon : LEXICON) : Dictionary.t :=
  let names := (map fst lexicon ++ ["<unk>"%string])%list in
  Dictionary.mk
    (fun w => position names w 0%Z)
    (fun i => if (i <? 0)%Z then Raise ValueError
              else match nth_error names (Z.to_nat i) with
                   | Some w => Ok w
                   | None => Raise ValueError
                   end).

(** A language model without context, every word scoring [-1]. *)
Definition KenLM_new (lmFile : string) (d : Dictionary.t) : KenLM.t :=
  @KenLM.mk unit (fun _ => tt) (fun _ _ => (tt, (-1)%float)).

Definition init := __init__ lower load_words create_word_dict KenLM_new.

Definition vocabulary : list string :=
  ["<s>"; "|"; "<unk>"; "a"; "b"]%string.

Definition wordDict : Dictionary.t :=
  create_word_dict (load_words "words.lexicon").

(** The decoder [init vocabulary "lm.bin" "words.lexicon" 2 (-1) 0 False]
    returns. *)
Definition decoder : W2lKenLMDecoder :=
  mkDecoder 1 0.02 false 0 1 wordDict
    (mkLexiconDecoder
       (mkOptions 15 5 25 2 (-1) neg_infinity 0 false CTC)
       (Trie.mk 5 1 [([3; 4], 0%Z, (-1)%float)] (Some SmearMAX))
       (KenLM_new "lm.bin" wordDict) 1 0 1 [] false).

(** The decoder [init vocabulary "lm.bin" "pieces.lexicon" 2 (-1) 0 True]
    returns: sub-word mode. *)
Definition pieceDict : Dictionary.t :=
  create_word_dict (load_words "pieces.lexicon").

Definition subword_decoder : W2lKenLMDecoder :=
  mkDecoder 1 0.02 true 0 1 pieceDict
    (mkLexiconDecoder
       (mkOptions 15 5 25 2 (-1) neg_infinity 0 false CTC)
       (Trie.mk 5 1 [([3], 0%Z, (-1)%float); ([4], 1%Z, (-1)%float);
                     ([3; 4], 2%Z, (-1)%float); ([4; 3], 3%Z, (-1)%float)]
                (Some SmearMAX))
       (KenLM_new "lm.bin" pieceDict) 1 0 4 [] false).

End Fixture.

(** ** Notions used in the statements *)

(** The token [tokenIdxs[i - 1]] read at frame [i]: at frame 0 the index is
    [-1], the last token. *)
Definition prev_token (tokenIdxs : list Z) (i : nat) : Z :=
  match i with
  | O => last tokenIdxs 0%Z
  | S j => nth j tokenIdxs 0%Z
  end.

(** The effect of one iteration, given the token read at [i - 1]. *)
Definition scan_step (self : W2lKenLMDecoder) (prev : Z) (st : scan)
  (i : nat) (tokenIdx : Z) : scan :=
  if (tokenIdx =? blank self)%Z then st
  else if negb (tokenIdx =? prev)%Z && negb (tokenIdx =? silence self)%Z then
    mkScan (timesteps st) (wordFrames st ++ [i]) true
  else if wordFound st && negb (tokenIdx =? silence self)%Z then
    mkScan (timesteps st) (wordFrames st ++ [i]) (wordFound st)
  else if (tokenIdx =? silence self)%Z && wordFound st then
    mkScan (timesteps st ++ [wordFrames st]) [] false
  else st.

(** A run in progress holds a frame, and so does every emitted run. *)
Definition runs_nonempty (st : scan) : Prop :=
  (wordFound st = true -> wordFrames st <> [])
  /\ Forall (fun run => run <> []) (timesteps st).

(** Frames accumulated so far are below the current frame; frames already
    emitted are below the end of [pre]. *)
Definition frames_bounded (pre : list Z) (i : nat) (st : scan) : Prop :=
  Forall (fun f => f < i) (wordFrames st)
  /\ Forall (Forall (fun f => f < List.length pre)) (timesteps st).

(** Frame 0 is behind and occurs in no run, emitted or in progress. *)
Definition without_frame_zero (i : nat) (st : scan) : Prop :=
  1 <= i
  /\ ~ In 0 (wordFrames st)
  /\ Forall (fun run => ~ In 0 run) (timesteps st).

(** Frame 0 opened a run: either that run is still in progress, begins with
    frame 0 and no silence token was read since, or it was emitted and is the
    first run of the result. *)
Definition with_frame_zero (self : W2lKenLMDecoder) (tokenIdxs : list Z)
  (i : nat) (st : scan) : Prop :=
  1 <= i
  /\ ((timesteps st = []
       /\ wordFound st = true
       /\ hd_error (wordFrames st) = Some 0
       /\ forall j, 1 <= j < i ->
                    nth_error tokenIdxs j <> Some (silence self))
      \/ (exists run runs,
             timesteps st = run :: runs /\ hd_error run = Some 0)).

(** [p] is the first position of [x] in [l]. *)
Definition first_position (l : list string) (x : string) (p : nat) : Prop :=
  nth_error l p = Some x /\ forall q, q < p -> nth_error l q <> Some x.

(** The spelling token does not resolve: its lower-cased form is not a
    vocabulary entry, or it is the reserved unknown token. *)
Definition unresolvable (lower : string -> string)
  (vocabulary : list string) (token : string) : Prop :=
  ~ In (lower token) vocabulary \/ lower token = "<unk>"%string.

(** Some spelling of the lexicon holds a token that does not resolve. *)
Definition has_unresolvable_token (lower : string -> string)
  (vocabulary : list string) (lexicon : LEXICON) : Prop :=
  exists word spellings spelling token,
    In (word, spellings) lexicon /\ In spelling spellings
    /\ In token spelling /\ unresolvable lower vocabulary token.

(** The assembly in the words of the specification: join the pieces, replace
    the continuation marker with nothing, replace the marker occurrences that
    remain with a space, split on whitespace. *)
Definition assemble_as_specified (pieces : list string) : list string :=
  Py.split
    (Py.replace underscore space
       (Py.replace underscore EmptyString (Py.join EmptyString pieces))).

(** Every character of [s] satisfies [p]. *)
Fixpoint all_chars (p : ascii -> bool) (s : string) : bool :=
  match s with
  | EmptyString => true
  | String c s' => p c && all_chars p s'
  end.

(** [s] holds no whitespace character, of any width. *)
Definition no_whitespace (s : string) : bool :=
  all_chars (fun c => negb (Py.isspace c)) (Py.narrow s).

(** [s] holds no underscore. *)
Definition no_underscore (s : string) : bool :=
  all_chars (fun c => negb (Ascii.eqb c underscore)) s.

(** A whitespace character of two or three bytes starts [s]. *)
Definition starts_wide (s : string) : bool :=
  match s with
  | String c1 (String c2 s2) =>
      Py.isspace2 c1 c2
      || match s2 with
         | String c3 _ => Py.isspace3 c1 c2 c3
         | EmptyString => false
         end
  | _ => false
  end.

(** No whitespace character of two or three bytes occurs in [s]. *)
Fixpoint wide_free (s : string) : bool :=
  match s with
  | EmptyString => true
  | String c s' => negb (starts_wide s) && wide_free s'
  end.

(** The dictionary holds every non-negative word id of [res]. *)
Definition words_known (self : W2lKenLMDecoder) (res : DecodeResult.t)
  : Prop :=
  exists entries, word_entries self res = Ok entries.

(** The number of words of the string produced for one result. *)
Definition word_count (self : W2lKenLMDecoder) (res : DecodeResult.t)
  : result nat :=
  entries <- word_entries self res ;;
  Ok (if negb (_subwords self) then List.length entries
      else List.length (process_word_piece entries)).

(** [runs] are the frame runs of the alignment of [res]. *)
Definition runs_of (self : W2lKenLMDecoder) (res : DecodeResult.t)
  (runs : list (list nat)) : Prop :=
  _getWordsFrames self (DecodeResult.tokens res) = Ok runs.

(** [intervals] holds the interval of each run of [runs], in order. *)
Definition intervals_of (self : W2lKenLMDecoder) (runs : list (list nat))
  (intervals : list (float * float)) : Prop :=
  Forall2 (fun run iv => _getTimeInterval self run = Ok iv) runs intervals.

(** ** Batches: [decode] and [_decodeLexicon] *)

Module _DecodeResult.
Record t : Type := mk {
  label_sequences : list (list string);
  wordsFrames : list (list (list (list nat)));
  scores : list (list float);
  timesteps : list (list (list (float * float)))
}.
End _DecodeResult.

(** What [decode] reads of the emissions array: its shape [(B, T, N)], the
    address of its buffer ([ctypes.data]) and [strides[0]], in bytes. *)
Record Emissions : Type := mkEmissions {
  shape : nat * nat * nat;
  ctypes_data : Z;
  strides0 : Z
}.

Section Decode.

(** flashlight's [LexiconDecoder.decode(ptr, T, N)]. *)
Variable LexiconDecoder_decode :
  LexiconDecoder -> Z -> nat -> nat -> list DecodeResult.t.

(** [emissions.ctypes.data + b * (emissions.strides[0] // 2)] *)
Definition emissionsPtr (emissions : Emissions) (b : nat) : Z :=
  (ctypes_data emissions + Z.of_nat b * (strides0 emissions / 2))%Z.

Definition _decodeLexicon (self : W2lKenLMDecoder) (emissions : Emissions)
  (b : nat) : list DecodeResult.t :=
  let T := snd (fst (shape emissions)) in
  let N := snd (shape emissions) in
  let results :=
    LexiconDecoder_decode (_decoder self) (emissionsPtr emissions b) T N in
  firstn (_nbest self) results.

(** Body of [for b in range(B)]; the accumulator holds [allWords],
    [allWordsFrames], [allScores] and [allTimesteps]. *)
Definition decode_body (self : W2lKenLMDecoder) (emissions : Emissions)
  (acc : _DecodeResult.t) (b : nat) : result _DecodeResult.t :=
  let hypothesis := _decodeLexicon self emissions b in
  out <- _postProcessHypothesis self hypothesis ;;
  Ok (_DecodeResult.mk
        (_DecodeResult.label_sequences acc ++ [out_words out])
        (_DecodeResult.wordsFrames acc ++ [out_wordsFrames out])
        (_DecodeResult.scores acc ++ [out_scores out])
        (_DecodeResult.timesteps acc ++ [out_timesteps out])).

Definition decode (self : W2lKenLMDecoder) (emissions : Emissions)
  : result _DecodeResult.t :=
  let B := fst (fst (shape emissions)) in
  foldM (decode_body self emissions) (seq 0 B) (_DecodeResult.mk [] [] [] []).

End Decode.

(** ** Languages: [asr4/types/language.py] *)

Module Str.

(** [str.upper] on ASCII letters. *)
Definition upper_char (c : ascii) : ascii :=
  let n := nat_of_ascii c in
  if (97 <=? n) && (n <=? 122) then ascii_of_nat (n - 32) else c.

Fixpoint upper (s : string) : string :=
  match s with
  | EmptyString => EmptyString
  | String c s' => String (upper_char c) (upper s')
  end.

(** [str.lower] on ASCII letters. *)
Definition lower : string -> string := Fixture.lower.

End Str.

Module Language.

Inductive t : Type := EN_US | ES | PT_BR.

Definition value (l : t) : string :=
  match l with
  | EN_US => "en-US"
  | ES => "es"
  | PT_BR => "pt-BR"
  end.

Definition name (l : t) : string :=
  match l with
  | EN_US => "EN_US"
  | ES => "ES"
  | PT_BR => "PT_BR"
  end.

(** [cls[key]]: the member of that name; [None] stands for [KeyError]. *)
Definition by_name (key : string) : option t :=
  if String.eqb key "EN_US" then Some EN_US
  else if String.eqb key "ES" then Some ES
  else if String.eqb key "PT_BR" then Some PT_BR
  else None.

(** The argument of [parse]: a [Language], a [str], or any other object
    (on which [.upper()] raises). *)
Inductive arg : Type :=
| OfLanguage : t -> arg
| OfStr : string -> arg
| OfOther : arg.

Definition parse (language : arg) : option t :=
  match language with
  | OfLanguage l => Some l
  | OfStr s =>
      by_name (Py.replace "-"%char "_"%string (Str.upper s))
  | OfOther => None
  end.

Definition check (language : arg) : bool :=
  match parse language with
  | Some _ => true
  | None => false
  end.

Definition asFormatter (l : t) : string := Str.lower (value l).

Definition getValidOptions : list t := [EN_US; ES; PT_BR].

Definition getDefaultValue : t := EN_US.

End Language.

(** ** Notions used in the statements on runs, construction and batches *)

(** Frame [p] of the alignment holds a token that is neither blank nor
    silence. *)
Definition regular_frame (self : W2lKenLMDecoder) (tokenIdxs : list Z)
  (p : nat) : Prop :=
  exists tok, nth_error tokenIdxs p = Some tok
              /\ tok <> blank self /\ tok <> silence self.

(** [run] starts at frame [f], is closed by the silence token at frame [s],
    and holds exactly the non-blank frames from [f] up to [s]. *)
Definition closed_run (self : W2lKenLMDecoder) (tokenIdxs : list Z)
  (run : list nat) : Prop :=
  exists f s,
    hd_error run = Some f
    /\ nth_error tokenIdxs s = Some (silence self)
    /\ forall p, In p run
                 <-> (f <= p < s
                      /\ nth_error tokenIdxs p <> Some (blank self)).

(** The run in progress at frame [i]. *)
Definition open_run (self : W2lKenLMDecoder) (tokenIdxs : list Z)
  (i : nat) (st : scan) : Prop :=
  (wordFound st = false -> wordFrames st = [])
  /\ (wordFound st = true ->
      exists f,
        hd_error (wordFrames st) = Some f
        /\ forall p, In p (wordFrames st)
                     <-> (f <= p < i
                          /\ nth_error tokenIdxs p <> Some (blank self))).

(** Invariants of the scan: the frames held are regular; *)
Definition frames_regular (self : W2lKenLMDecoder) (tokenIdxs : list Z)
  (st : scan) : Prop :=
  Forall (regular_frame self tokenIdxs) (wordFrames st)
  /\ Forall (Forall (regular_frame self tokenIdxs)) (timesteps st).

(** the frames held, read run after run, increase and lie below [i]; *)
Definition frames_sorted (i : nat) (st : scan) : Prop :=
  StronglySorted lt (List.concat (timesteps st) ++ wordFrames st)
  /\ Forall (fun p => p < i) (List.concat (timesteps st) ++ wordFrames st).

(** there are no more emitted runs than silence tokens read. *)
Definition runs_counted (self : W2lKenLMDecoder) (tokenIdxs : list Z)
  (i : nat) (st : scan) : Prop :=
  List.length (timesteps st)
  <= count_occ Z.eq_dec (firstn i tokenIdxs) (silence self).

(** A word as [str.split] returns it: not empty, no whitespace. *)
Definition split_word (w : string) : Prop :=
  w <> EmptyString /\ no_whitespace w = true.

(** The pairs (word, spelling) of a lexicon, in iteration order. *)
Definition spellings_of (lexicon : LEXICON) : list (string * list string) :=
  flat_map (fun entry => map (fun spelling => (fst entry, spelling))
                             (snd entry)) lexicon.

(** The trie entry [e] is what [_initializeTrie] inserts for the spelling
    [snd pair] of the word [fst pair]: every token at the first position of
    its lower-cased form, none at the position of ["<unk>"], labelled with the
    word's id and scored by the language model from its start state. *)
Definition trie_entry_of (lower : string -> string)
  (vocabulary : list string) (wordDict : Dictionary.t)
  (languageModel : KenLM.t) (pair : string * list string)
  (e : list nat * Z * float) : Prop :=
  snd (fst e) = Dictionary.get_index wordDict (fst pair)
  /\ snd e = snd (KenLM.score languageModel
                    (KenLM.start languageModel false)
                    (Dictionary.get_index wordDict (fst pair)))
  /\ Forall2 (fun token i => first_position vocabulary (lower token) i)
             (snd pair) (fst (fst e))
  /\ forall unkWord, Py.index vocabulary "<unk>" = Ok unkWord ->
                     ~ In unkWord (fst (fst e)).

(** Every spelling token of the lexicon lower-cases to a vocabulary entry. *)
Definition all_tokens_known (lower : string -> string)
  (vocabulary : list string) (lexicon : LEXICON) : Prop :=
  forall word spellings spelling token,
    In (word, spellings) lexicon -> In spelling spellings ->
    In token spelling -> In (lower token) vocabulary.

(** Some spelling token of the lexicon lower-cases to ["<unk>"]. *)
Definition spells_unk (lower : string -> string) (lexicon : LEXICON) : Prop :=
  exists word spellings spelling token,
    In (word, spellings) lexicon /\ In spelling spellings
    /\ In token spelling /\ lower token = "<unk>"%string.

(** What makes a constructor call succeed. *)
Definition well_configured (lower : string -> string)
  (load_words : string -> LEXICON) (vocabulary : list string)
  (lmFile lexicon : option string) : Prop :=
  exists lmPath lexPath,
    lmFile = Some lmPath /\ lexicon = Some lexPath
    /\ lmPath <> EmptyString /\ lexPath <> EmptyString
    /\ (In "<ctc_blank>"%string vocabulary \/ In "<s>"%string vocabulary)
    /\ (In "<sep>"%string vocabulary \/ In "|"%string vocabulary
        \/ In "</s>"%string vocabulary)
    /\ In "<unk>"%string vocabulary
    /\ ~ has_unresolvable_token lower vocabulary (load_words lexPath).

(** The address of [emissions[b, 0, 0]] in a C-contiguous array of 4-byte
    floats of shape [(B, T, N)]. *)
Definition item_address (emissions : Emissions) (b : nat) : Z :=
  (ctypes_data emissions
   + 4 * (Z.of_nat b * Z.of_nat (snd (fst (shape emissions)))
          * Z.of_nat (snd (shape emissions))))%Z.

(** For the concrete runs: a stand-in for flashlight's decoding that
    returns two hypotheses, best first, whatever the emissions; and a batch of
    two items of four frames over the five tokens of the vocabulary. *)
Definition two_hypotheses (_ : LexiconDecoder) (_ : Z) (_ _ : nat)
  : list DecodeResult.t :=
  [DecodeResult.mk 0 [0]%Z [3; 3; 4; 1]%Z;
   DecodeResult.mk 0 [0; 0]%Z [3; 1; 4; 1]%Z].

Definition batch_of_two : Emissions := mkEmissions (2, 4, 5) 4096 80.

(** * Properties *)

(** ** Indexing *)

Lemma nth_error_last (A : Type) (d : A) (l : list A) :
  l <> [] -> nth_error l (List.length l - 1) = Some (last l d).
Proof.
  induction l as [|x l IH]; [congruence|].
  intros _. destruct l as [|y l]; [reflexivity|].
  change (last (x :: y :: l) d) with (last (y :: l) d).
  rewrite <- IH by congruence.
  cbn [List.length]. rewrite !Nat.sub_succ, !Nat.sub_0_r. reflexivity.
Qed.

Lemma getitem_nth (A : Type) (l : list A) (k : nat) (x : A) :
  nth_error l k = Some x -> Py.getitem l (Z.of_nat k) = Ok x.
Proof.
  intros H. unfold Py.getitem.
  assert (k < List.length l) by (apply nth_error_Some; congruence).
  assert (Hneg : (Z.of_nat k <? 0)%Z = false) by (apply Z.ltb_ge; lia).
  assert (Hlen : (Z.of_nat (List.length l) <=? Z.of_nat k)%Z = false)
    by (apply Z.leb_gt; lia).
  cbv zeta. rewrite Hneg. cbv iota. rewrite Hneg, Hlen.
  cbn [orb]. rewrite Nat2Z.id, H. reflexivity.
Qed.

Lemma getitem_minus_one (A : Type) (d : A) (l : list A) :
  l <> [] -> Py.getitem l (-1)%Z = Ok (last l d).
Proof.
  intros H. unfold Py.getitem.
  assert (0 < List.length l) by (destruct l; [congruence | cbn; lia]).
  assert (Hneg : (-1 + Z.of_nat (List.length l) <? 0)%Z = false)
    by (apply Z.ltb_ge; lia).
  assert (Hlen : (Z.of_nat (List.length l)
                  <=? -1 + Z.of_nat (List.length l))%Z = false)
    by (apply Z.leb_gt; lia).
  cbv zeta. change (-1 <? 0)%Z with true. cbv iota. rewrite Hneg, Hlen.
  cbn [orb].
  replace (Z.to_nat (-1 + Z.of_nat (List.length l))) with (List.length l - 1)
    by lia.
  rewrite (nth_error_last d H). reflexivity.
Qed.

Lemma getitem_final (A : Type) (d : A) (l : list A) :
  l <> [] -> Py.getitem l (Z.of_nat (List.length l) - 1)%Z = Ok (last l d).
Proof.
  intros H.
  assert (0 < List.length l) by (destruct l; [congruence | cbn; lia]).
  replace (Z.of_nat (List.length l) - 1)%Z
    with (Z.of_nat (List.length l - 1)) by lia.
  apply getitem_nth, nth_error_last, H.
Qed.

Lemma getitem_prev (tokenIdxs : list Z) (i : nat) :
  i < List.length tokenIdxs ->
  Py.getitem tokenIdxs (Z.of_nat i - 1)%Z = Ok (prev_token tokenIdxs i).
Proof.
  intros H. destruct i as [|j].
  - apply getitem_minus_one. destruct tokenIdxs; [cbn in H; lia | congruence].
  - replace (Z.of_nat (S j) - 1)%Z with (Z.of_nat j) by lia.
    apply getitem_nth. cbn [prev_token]. apply nth_error_nth'. lia.
Qed.

(** ** The scan as a transition function *)

Lemma body_in_range (self : W2lKenLMDecoder) (tokenIdxs : list Z) (st : scan)
  (i : nat) (tokenIdx : Z) :
  i < List.length tokenIdxs ->
  _getWordsFrames_body self tokenIdxs st i tokenIdx
  = Ok (scan_step self (prev_token tokenIdxs i) st i tokenIdx).
Proof.
  intros H. unfold _getWordsFrames_body, scan_step.
  rewrite (getitem_prev _ H). cbn [bind].
  repeat match goal with |- context [if ?c then _ else _] => destruct c end;
    reflexivity.
Qed.

(** Hoare-style rule for the scan loop: a predicate on (frame, state) kept by
    every iteration holds of the final state, and the loop does not raise. *)
Lemma loop_rule (self : W2lKenLMDecoder) (tokenIdxs : list Z)
  (P : nat -> scan -> Prop) :
  (forall i tok st,
      nth_error tokenIdxs i = Some tok -> P i st ->
      P (S i) (scan_step self (prev_token tokenIdxs i) st i tok)) ->
  forall rest pre st,
    tokenIdxs = pre ++ rest -> P (List.length pre) st ->
    exists st',
      _getWordsFrames_loop self tokenIdxs (List.length pre) rest st = Ok st'
      /\ P (List.length tokenIdxs) st'.
Proof.
  intros Hstep. induction rest as [|tok rest IH]; intros pre st Hl HP.
  - subst. rewrite app_nil_r. exists st. split; [reflexivity | assumption].
  - assert (Hnth : nth_error tokenIdxs (List.length pre) = Some tok).
    { subst. rewrite nth_error_app2, Nat.sub_diag by lia. reflexivity. }
    cbn [_getWordsFrames_loop].
    rewrite body_in_range by (apply nth_error_Some; congruence).
    cbn [bind].
    specialize (IH (pre ++ [tok])
                  (scan_step self (prev_token tokenIdxs (List.length pre))
                             st (List.length pre) tok)).
    rewrite length_app, Nat.add_1_r in IH. apply IH.
    + subst. rewrite <- app_assoc. reflexivity.
    + apply Hstep; assumption.
Qed.

Lemma scan_total (self : W2lKenLMDecoder) (tokenIdxs : list Z)
  (P : nat -> scan -> Prop) :
  (forall i tok st,
      nth_error tokenIdxs i = Some tok -> P i st ->
      P (S i) (scan_step self (prev_token tokenIdxs i) st i tok)) ->
  P 0 scan0 ->
  exists st,
    _getWordsFrames self tokenIdxs = Ok (timesteps st)
    /\ P (List.length tokenIdxs) st.
Proof.
  intros Hstep H0.
  destruct (@loop_rule self tokenIdxs P Hstep tokenIdxs [] scan0 eq_refl H0)
    as [st [Hrun HP]].
  exists st. split; [|assumption].
  unfold _getWordsFrames. cbn [List.length] in Hrun. rewrite Hrun. reflexivity.
Qed.

(** ** List comprehensions that may raise *)

Lemma mapM_Forall2 (A B : Type) (f : A -> result B) (l : list A) :
  forall ys, mapM f l = Ok ys -> Forall2 (fun x y => f x = Ok y) l ys.
Proof.
  induction l as [|x l IH]; cbn [mapM]; intros ys H.
  - inversion H. constructor.
  - destruct (f x) as [y|e] eqn:Hx; cbn [bind] in H; [|discriminate].
    destruct (mapM f l) as [ys'|e] eqn:Hl; cbn [bind] in H; [|discriminate].
    inversion H; subst. constructor; [assumption | apply IH; reflexivity].
Qed.

Lemma mapM_total (A B : Type) (f : A -> result B) (l : list A) :
  Forall (fun x => exists y, f x = Ok y) l -> exists ys, mapM f l = Ok ys.
Proof.
  induction 1 as [|x l [y Hy] _ [ys Hys]]; cbn [mapM].
  - exists []. reflexivity.
  - exists (y :: ys). rewrite Hy. cbn [bind]. rewrite Hys. reflexivity.
Qed.

Lemma mapM_raises (A B : Type) (f : A -> result B) (l : list A) (x : A) :
  In x l -> raises (f x) -> raises (mapM f l).
Proof.
  induction l as [|y l IH]; cbn [mapM In]; [tauto|].
  intros [->|Hin] Hx.
  - destruct Hx as [e ->]. exists e. reflexivity.
  - destruct (f y) as [b|e]; cbn [bind]; [|exists e; reflexivity].
    destruct (IH Hin Hx) as [e ->]. exists e. reflexivity.
Qed.

Lemma foldM_raises (A S : Type) (body : S -> A -> result S) (l : list A)
  (x : A) :
  In x l -> (forall s, raises (body s x)) -> forall s, raises (foldM body l s).
Proof.
  induction l as [|y l IH]; cbn [foldM In]; [tauto|].
  intros [->|Hin] Hx s.
  - destruct (Hx s) as [e ->]. exists e. reflexivity.
  - destruct (body s y) as [s'|e]; cbn [bind]; [|exists e; reflexivity].
    apply IH; assumption.
Qed.

(** ** Time intervals of non-empty runs *)

Lemma time_interval_cons (self : W2lKenLMDecoder) (f : nat) (rest : list nat) :
  _getTimeInterval self (f :: rest)
  = Ok (_getFrameTime self f,
        (_getFrameTime self (last (f :: rest) f) + frameSize self)%float).
Proof.
  unfold _getTimeInterval.
  change 0%Z with (Z.of_nat 0).
  rewrite (@getitem_nth _ (f :: rest) 0 f eq_refl). cbn [bind].
  rewrite (@getitem_final _ f (f :: rest)) by congruence.
  reflexivity.
Qed.

Lemma time_interval_defined (self : W2lKenLMDecoder) (run : list nat) :
  run <> [] -> exists iv, _getTimeInterval self run = Ok iv.
Proof.
  destruct run as [|f rest]; [congruence|]. intros _.
  rewrite time_interval_cons. eexists. reflexivity.
Qed.

(** ** Every emitted run holds at least one frame *)

Lemma snoc_not_nil (A : Type) (l : list A) (x : A) : l ++ [x] <> [].
Proof. destruct l; discriminate. Qed.

Lemma scan_step_nonempty (self : W2lKenLMDecoder) (prev : Z) (st : scan)
  (i : nat) (tok : Z) :
  runs_nonempty st -> runs_nonempty (scan_step self prev st i tok).
Proof.
  intros [Hw Ht]. unfold scan_step, runs_nonempty.
  destruct (tok =? blank self)%Z; [split; assumption|].
  destruct (tok =? prev)%Z, (tok =? silence self)%Z,
    (wordFound st) eqn:Hf; cbn [negb andb timesteps wordFrames wordFound];
    try (split; [intros _; apply snoc_not_nil | assumption]);
    try (split; [intros Hf'; first [apply Hw; reflexivity | congruence]
                | assumption]).
  all: split; [discriminate|].
  all: apply Forall_app; split; [assumption|].
  all: constructor; [apply Hw; reflexivity | constructor].
Qed.

Lemma word_timestamps_total (self : W2lKenLMDecoder) (tokenIdxs : list Z) :
  exists wordFrames timeIntervals,
    _getWordsFrames self tokenIdxs = Ok wordFrames
    /\ Forall (fun run => run <> []) wordFrames
    /\ _getWordTimestamps self tokenIdxs = Ok (wordFrames, timeIntervals)
    /\ Forall2 (fun run iv => _getTimeInterval self run = Ok iv)
               wordFrames timeIntervals.
Proof.
  destruct (@scan_total self tokenIdxs (fun _ => runs_nonempty))
    as [st [Hrun [_ Hne]]].
  - intros i tok st _. apply scan_step_nonempty.
  - split; [discriminate | constructor].
  - destruct (@mapM_total _ _ (_getTimeInterval self) (timesteps st))
      as [ivs Hivs].
    { eapply Forall_impl; [|exact Hne]. intros run.
      apply time_interval_defined. }
    exists (timesteps st), ivs. repeat split; try assumption.
    + unfold _getWordTimestamps. rewrite Hrun. cbn [bind].
      rewrite Hivs. reflexivity.
    + apply mapM_Forall2, Hivs.
Qed.

(** C10.  Whatever the alignment, the frame-span scan returns (it does not
    raise), every run it emits holds at least one frame, and the
    time-interval computation, which reads the first and the last element of a
    run, succeeds on each emitted run: the timestamping of an alignment never
    fails. *)
Theorem emitted_runs_are_nonempty (self : W2lKenLMDecoder)
  (tokenIdxs : list Z) :
  exists wordFrames timeIntervals,
    _getWordsFrames self tokenIdxs = Ok wordFrames
    /\ Forall (fun run => run <> []) wordFrames
    /\ Forall (fun run => exists iv, _getTimeInterval self run = Ok iv)
              wordFrames
    /\ _getWordTimestamps self tokenIdxs = Ok (wordFrames, timeIntervals).
Proof.
  destruct (word_timestamps_total self tokenIdxs)
    as [wf [ti [Hwf [Hne [Hts _]]]]].
  exists wf, ti. repeat split; try assumption.
  eapply Forall_impl; [|exact Hne].
  intros run. apply time_interval_defined.
Qed.

(** The interval computation does raise on the empty run, so the
    non-emptiness above is what keeps timestamping total. *)
Lemma time_interval_of_empty_run (self : W2lKenLMDecoder) :
  _getTimeInterval self [] = Raise IndexError.
Proof. reflexivity. Qed.

(** ** Frames after the last silence *)

Section TrailingFrames.

Variable self : W2lKenLMDecoder.
Variables pre suf : list Z.
Hypothesis suf_no_silence : Forall (fun tok => tok <> silence self) suf.

Lemma silence_lies_in_pre (i : nat) :
  nth_error (pre ++ suf) i = Some (silence self) -> i < List.length pre.
Proof.
  intros H. destruct (Nat.lt_ge_cases i (List.length pre)) as [|Hge];
    [assumption|].
  rewrite nth_error_app2 in H by assumption.
  apply nth_error_In in H.
  rewrite Forall_forall in suf_no_silence.
  exfalso. exact (suf_no_silence _ H eq_refl).
Qed.

Lemma scan_step_bounded (i : nat) (tok : Z) (st : scan) :
  nth_error (pre ++ suf) i = Some tok ->
  frames_bounded pre i st ->
  frames_bounded pre (S i)
    (scan_step self (prev_token (pre ++ suf) i) st i tok).
Proof.
  intros Hnth [Hw Ht].
  assert (Hw' : Forall (fun f => f < S i) (wordFrames st)).
  { eapply Forall_impl; [|exact Hw]. cbn. intros; lia. }
  assert (Happ : Forall (fun f => f < S i) (wordFrames st ++ [i])).
  { apply Forall_app. split; [assumption|]. repeat constructor. }
  unfold scan_step, frames_bounded.
  destruct (tok =? blank self)%Z; [split; assumption|].
  destruct (tok =? prev_token (pre ++ suf) i)%Z,
    (tok =? silence self)%Z eqn:Hs, (wordFound st);
    cbn [negb andb timesteps wordFrames wordFound];
    try (split; assumption).
  all: split; [constructor|].
  all: apply Forall_app; split; [assumption|].
  all: constructor; [|constructor].
  all: apply Z.eqb_eq in Hs; subst tok.
  all: apply silence_lies_in_pre in Hnth.
  all: eapply Forall_impl; [|exact Hw]; cbn; intros; lia.
Qed.

Lemma trailing_frames (wordFrames : list (list nat)) :
  _getWordsFrames self (pre ++ suf) = Ok wordFrames ->
  forall run frame,
    In run wordFrames -> In frame run -> frame < List.length pre.
Proof.
  intros Hrun run frame Hin Hfr.
  destruct (@scan_total self (pre ++ suf) (frames_bounded pre))
    as [st [Hst [_ Hb]]].
  - intros i tok st. apply scan_step_bounded.
  - split; constructor.
  - rewrite Hst in Hrun. inversion Hrun; subst.
    rewrite Forall_forall in Hb. specialize (Hb _ Hin).
    rewrite Forall_forall in Hb. exact (Hb _ Hfr).
Qed.

End TrailingFrames.

(** C9.  When no silence token occurs in the suffix [suf] of an alignment
    [pre ++ suf], no frame of [suf] belongs to an emitted run: every frame of
    every run lies in [pre].  The intervals are one per emitted run, so the
    trailing frames get no interval either; with no silence token at all
    ([pre] empty) nothing is emitted. *)
Theorem trailing_frames_are_discarded (self : W2lKenLMDecoder)
  (pre suf : list Z) :
  Forall (fun tok => tok <> silence self) suf ->
  exists wordFrames timeIntervals,
    _getWordsFrames self (pre ++ suf) = Ok wordFrames
    /\ _getWordTimestamps self (pre ++ suf) = Ok (wordFrames, timeIntervals)
    /\ List.length timeIntervals = List.length wordFrames
    /\ (forall run frame,
           In run wordFrames -> In frame run -> frame < List.length pre)
    /\ (pre = [] -> wordFrames = [] /\ timeIntervals = []).
Proof.
  intros Hsuf.
  destruct (word_timestamps_total self (pre ++ suf))
    as [wf [ti [Hwf [Hne [Hts Hall]]]]].
  pose proof (@trailing_frames self pre suf Hsuf wf Hwf) as Hb.
  assert (Hlen : List.length ti = List.length wf)
    by (symmetry; eapply Forall2_length, Hall).
  exists wf, ti.
  split; [assumption|]. split; [assumption|]. split; [assumption|].
  split; [assumption|].
  intros ->. destruct wf as [|run wf].
  - destruct ti; [split; reflexivity | discriminate].
  - exfalso. inversion Hne as [|? ? Hrun _]; subst.
    destruct run as [|f run]; [congruence|].
    specialize (Hb (f :: run) f (or_introl eq_refl) (or_introl eq_refl)).
    cbn in Hb. lia.
Qed.

Lemma trailing_frames_are_discarded_witness :
  exists wordFrames timeIntervals,
    _getWordsFrames Fixture.decoder ([3; 4; 1] ++ [3; 4; 0])%Z
    = Ok wordFrames
    /\ _getWordTimestamps Fixture.decoder ([3; 4; 1] ++ [3; 4; 0])%Z
       = Ok (wordFrames, timeIntervals)
    /\ List.length timeIntervals = List.length wordFrames
    /\ (forall run frame,
           In run wordFrames -> In frame run ->
           frame < List.length [3; 4; 1]%Z)
    /\ ([3; 4; 1]%Z = [] -> wordFrames = [] /\ timeIntervals = []).
Proof.
  apply (@trailing_frames_are_discarded Fixture.decoder
           [3; 4; 1]%Z [3; 4; 0]%Z).
  repeat constructor; cbn; lia.
Defined.

(** On that alignment the only run is [[0; 1]]: frames 3 and 4 are lost. *)
Lemma trailing_frames_example :
  _getWordsFrames Fixture.decoder [3; 4; 1; 3; 4; 0]%Z = Ok [[0; 1]].
Proof. reflexivity. Qed.

(** ** Frame 0 *)

Lemma last_cons_default (A : Type) (x d d' : A) (l : list A) :
  last (x :: l) d = last (x :: l) d'.
Proof.
  revert x. induction l as [|y l IH]; intros x; [reflexivity|].
  change (last (y :: l) d = last (y :: l) d'). apply IH.
Qed.

Lemma scan_step_without_zero (self : W2lKenLMDecoder) (prev : Z) (st : scan)
  (i : nat) (tok : Z) :
  without_frame_zero i st ->
  without_frame_zero (S i) (scan_step self prev st i tok).
Proof.
  intros (Hi & Hw & Ht).
  assert (Happ : ~ In 0 (wordFrames st ++ [i])).
  { rewrite in_app_iff. cbn. intros [H|[H|[]]]; [tauto | lia]. }
  unfold scan_step, without_frame_zero.
  destruct (tok =? blank self)%Z; [repeat split; (lia || assumption)|].
  destruct (tok =? prev)%Z, (tok =? silence self)%Z, (wordFound st);
    cbn [negb andb timesteps wordFrames wordFound];
    try (repeat split; (lia || assumption)).
  all: split; [lia|]; split; [intros []|].
  all: apply Forall_app; split; [assumption|].
  all: constructor; [assumption | constructor].
Qed.

Lemma scan_step_with_zero (self : W2lKenLMDecoder) (tokenIdxs : list Z)
  (i : nat) (tok : Z) (st : scan) :
  blank self <> silence self ->
  nth_error tokenIdxs i = Some tok ->
  with_frame_zero self tokenIdxs i st ->
  with_frame_zero self tokenIdxs (S i)
    (scan_step self (prev_token tokenIdxs i) st i tok).
Proof.
  intros Hbs Hnth [Hi [(Ht & Hw & Hh & Hns)|(run & runs & Ht & Hh)]];
    (split; [lia|]).
  - assert (Hnext : tok <> silence self ->
                    forall j, 1 <= j < S i ->
                              nth_error tokenIdxs j <> Some (silence self)).
    { intros Hsil j Hj. destruct (Nat.eq_dec j i) as [->|Hji].
      - rewrite Hnth. congruence.
      - apply Hns. lia. }
    unfold scan_step. destruct (Z.eq_dec tok (silence self)) as [Hsil|Hsil].
    + right. subst tok.
      rewrite (proj2 (Z.eqb_neq _ _) (fun H => Hbs (eq_sym H))).
      rewrite Z.eqb_refl, Hw. cbn [negb andb]. rewrite andb_false_r.
      cbn [timesteps]. rewrite Ht. exists (wordFrames st), [].
      split; [reflexivity | exact Hh].
    + left. destruct (tok =? blank self)%Z.
      * repeat split; try assumption. apply Hnext, Hsil.
      * rewrite (proj2 (Z.eqb_neq _ _) Hsil), Hw. cbn [negb andb].
        rewrite andb_true_r.
        assert (Hhd : hd_error (wordFrames st ++ [i]) = Some 0)
          by (destruct (wordFrames st); [discriminate | exact Hh]).
        destruct (negb (tok =? prev_token tokenIdxs i)%Z);
          cbn [timesteps wordFrames wordFound];
          (repeat split; [assumption | assumption | apply Hnext, Hsil]).
  - right. unfold scan_step.
    repeat match goal with
           | |- context [if ?c then _ else _] => destruct c
           end;
      cbn [timesteps]; rewrite ?Ht; eexists; eexists;
      (split; [reflexivity | exact Hh]).
Qed.

(** C8.  At frame 0 the scan reads [tokenIdxs[-1]], the last token of the
    alignment.  For a first token that is neither blank nor silence, the
    iteration at frame 0 opens the run [[0]] exactly when the token differs
    from the last token of the alignment, and otherwise leaves the state as it
    was; the scan goes on from frame 1 in the state so decided.  When the two
    tokens are equal, frame 0 belongs to no run of the result; when they
    differ and a silence token (other than the blank) follows, the first run
    of the result begins with frame 0. *)
Theorem frame_zero_is_compared_with_last_token (self : W2lKenLMDecoder)
  (tok : Z) (rest : list Z) :
  tok <> blank self -> tok <> silence self ->
  Py.getitem (tok :: rest) (Z.of_nat 0 - 1)%Z = Ok (last (tok :: rest) tok)
  /\ _getWordsFrames_body self (tok :: rest) scan0 0 tok
     = Ok (if (tok =? last (tok :: rest) tok)%Z then scan0
           else mkScan [] [0] true)
  /\ _getWordsFrames self (tok :: rest)
     = (st <- _getWordsFrames_loop self (tok :: rest) 1 rest
                (if (tok =? last (tok :: rest) tok)%Z then scan0
                 else mkScan [] [0] true) ;;
        Ok (timesteps st))
  /\ exists wordFrames,
      _getWordsFrames self (tok :: rest) = Ok wordFrames
      /\ (tok = last (tok :: rest) tok ->
          forall run, In run wordFrames -> ~ In 0 run)
      /\ (tok <> last (tok :: rest) tok ->
          blank self <> silence self ->
          In (silence self) rest ->
          exists run runs,
            wordFrames = run :: runs /\ hd_error run = Some 0).
Proof.
  intros Hb Hs.
  assert (Hbody : _getWordsFrames_body self (tok :: rest) scan0 0 tok
                  = Ok (if (tok =? last (tok :: rest) tok)%Z then scan0
                        else mkScan [] [0] true)).
  { rewrite body_in_range by (cbn; lia).
    unfold scan_step, prev_token.
    rewrite (last_cons_default tok 0%Z tok rest).
    rewrite (proj2 (Z.eqb_neq _ _) Hb), (proj2 (Z.eqb_neq _ _) Hs).
    destruct (tok =? last (tok :: rest) tok)%Z; reflexivity. }
  assert (Hscan : _getWordsFrames self (tok :: rest)
                  = (st <- _getWordsFrames_loop self (tok :: rest) 1 rest
                             (if (tok =? last (tok :: rest) tok)%Z then scan0
                              else mkScan [] [0] true) ;;
                     Ok (timesteps st))).
  { unfold _getWordsFrames. cbn [_getWordsFrames_loop].
    rewrite Hbody. reflexivity. }
  split; [|split; [exact Hbody|split; [exact Hscan|]]].
  - apply getitem_minus_one. congruence.
  - destruct (word_timestamps_total self (tok :: rest))
      as [wf [_ [Hwf _]]].
    exists wf. split; [assumption|]. rewrite Hscan in Hwf. split.
    + intros Heq run Hin.
      destruct (@loop_rule self (tok :: rest) without_frame_zero
                  (fun i t st _ => @scan_step_without_zero self _ st i t)
                  rest [tok] scan0 eq_refl)
        as [st [Hrun (_ & _ & Hz)]].
      { repeat split; [cbn; lia | intros [] | constructor]. }
      rewrite (proj2 (Z.eqb_eq _ _) Heq) in Hwf.
      cbn [List.length] in Hrun. rewrite Hrun in Hwf. cbn [bind] in Hwf.
      inversion Hwf; subst.
      rewrite Forall_forall in Hz. exact (Hz _ Hin).
    + intros Hne Hbs Hin.
      destruct (@loop_rule self (tok :: rest)
                  (with_frame_zero self (tok :: rest))
                  (fun i t st Hnth =>
                     @scan_step_with_zero self _ i t st Hbs Hnth)
                  rest [tok] (mkScan [] [0] true) eq_refl)
        as [st [Hrun [_ Hst]]].
      { split; [cbn; lia|]. left. repeat split. cbn. intros j Hj. lia. }
      rewrite (proj2 (Z.eqb_neq _ _) Hne) in Hwf.
      cbn [List.length] in Hrun. rewrite Hrun in Hwf. cbn [bind] in Hwf.
      inversion Hwf; subst.
      destruct Hst as [(_ & _ & _ & Hns)|Hst]; [|exact Hst].
      exfalso. apply In_nth_error in Hin. destruct Hin as [k Hk].
      apply (Hns (S k)); [|exact Hk].
      assert (k < List.length rest) by (apply nth_error_Some; congruence).
      cbn [List.length]. lia.
Qed.

Lemma frame_zero_is_compared_with_last_token_witness :
  (Py.getitem [3; 4; 1; 3]%Z (Z.of_nat 0 - 1)%Z
   = Ok (last [3; 4; 1; 3]%Z 3%Z)
   /\ _getWordsFrames_body Fixture.decoder [3; 4; 1; 3]%Z scan0 0 3%Z
      = Ok (if (3 =? last [3; 4; 1; 3] 3)%Z then scan0
            else mkScan [] [0] true)
   /\ _getWordsFrames Fixture.decoder [3; 4; 1; 3]%Z
      = (st <- _getWordsFrames_loop Fixture.decoder [3; 4; 1; 3]%Z 1
                 [4; 1; 3]%Z
                 (if (3 =? last [3; 4; 1; 3] 3)%Z then scan0
                  else mkScan [] [0] true) ;;
         Ok (timesteps st))
   /\ exists wordFrames,
       _getWordsFrames Fixture.decoder [3; 4; 1; 3]%Z = Ok wordFrames
       /\ (3%Z = last [3; 4; 1; 3]%Z 3%Z ->
           forall run, In run wordFrames -> ~ In 0 run)
       /\ (3%Z <> last [3; 4; 1; 3]%Z 3%Z ->
           blank Fixture.decoder <> silence Fixture.decoder ->
           In (silence Fixture.decoder) [4; 1; 3]%Z ->
           exists run runs,
             wordFrames = run :: runs /\ hd_error run = Some 0))
  /\ (Py.getitem [3; 4; 1; 4]%Z (Z.of_nat 0 - 1)%Z
      = Ok (last [3; 4; 1; 4]%Z 3%Z)
      /\ _getWordsFrames_body Fixture.decoder [3; 4; 1; 4]%Z scan0 0 3%Z
         = Ok (if (3 =? last [3; 4; 1; 4] 3)%Z then scan0
               else mkScan [] [0] true)
      /\ _getWordsFrames Fixture.decoder [3; 4; 1; 4]%Z
         = (st <- _getWordsFrames_loop Fixture.decoder [3; 4; 1; 4]%Z 1
                    [4; 1; 4]%Z
                    (if (3 =? last [3; 4; 1; 4] 3)%Z then scan0
                     else mkScan [] [0] true) ;;
            Ok (timesteps st))
      /\ exists wordFrames,
          _getWordsFrames Fixture.decoder [3; 4; 1; 4]%Z = Ok wordFrames
          /\ (3%Z = last [3; 4; 1; 4]%Z 3%Z ->
              forall run, In run wordFrames -> ~ In 0 run)
          /\ (3%Z <> last [3; 4; 1; 4]%Z 3%Z ->
              blank Fixture.decoder <> silence Fixture.decoder ->
              In (silence Fixture.decoder) [4; 1; 4]%Z ->
              exists run runs,
                wordFrames = run :: runs /\ hd_error run = Some 0)).
Proof.
  split.
  - apply (@frame_zero_is_compared_with_last_token Fixture.decoder
             3%Z [4; 1; 3]%Z); cbn; lia.
  - apply (@frame_zero_is_compared_with_last_token Fixture.decoder
             3%Z [4; 1; 4]%Z); cbn; lia.
Defined.

(** The alignment [a b | a] loses frame 0: the only run is [[1]]; with a
    different last token, [a b | b], the run is [[0; 1]]; and [a |] gives the
    run [[0]]. *)
Lemma frame_zero_example :
  _getWordsFrames Fixture.decoder [3; 4; 1; 3]%Z = Ok [[1]]
  /\ _getWordsFrames Fixture.decoder [3; 4; 1; 4]%Z = Ok [[0; 1]]
  /\ _getWordsFrames Fixture.decoder [3; 1]%Z = Ok [[0]].
Proof. repeat split; reflexivity. Qed.

(** ** [list.index] and [in] *)

Lemma contains_In (x : string) (l : list string) :
  Py.contains x l = true <-> In x l.
Proof.
  unfold Py.contains. rewrite existsb_exists. split.
  - intros [y [Hin Heq]]. apply String.eqb_eq in Heq. subst. assumption.
  - intros Hin. exists x. split; [assumption | apply String.eqb_refl].
Qed.

Lemma contains_not_In (x : string) (l : list string) :
  Py.contains x l = false <-> ~ In x l.
Proof.
  rewrite <- contains_In. destruct (Py.contains x l); split; congruence.
Qed.

Lemma index_first_position (l : list string) (x : string) :
  forall p, Py.index l x = Ok p -> first_position l x p.
Proof.
  induction l as [|y l IH]; cbn [Py.index]; intros p H; [discriminate|].
  destruct (String.eqb y x) eqn:Heq.
  - inversion H; subst. apply String.eqb_eq in Heq. subst.
    split; [reflexivity | intros q Hq; lia].
  - destruct (Py.index l x) as [n|e]; cbn [bind] in H; [|discriminate].
    inversion H; subst. destruct (IH n eq_refl) as [Hn Hfirst].
    split; [exact Hn|].
    intros [|q] Hq; cbn [nth_error].
    + intros Hy. inversion Hy; subst. rewrite String.eqb_refl in Heq.
      discriminate.
    + apply Hfirst. lia.
Qed.

Lemma index_of_member (l : list string) (x : string) :
  In x l -> exists p, Py.index l x = Ok p.
Proof.
  induction l as [|y l IH]; cbn [Py.index In]; [tauto|].
  intros H. destruct (String.eqb y x) eqn:Heq; [exists 0; reflexivity|].
  destruct H as [->|H]; [rewrite String.eqb_refl in Heq; discriminate|].
  destruct (IH H) as [p ->]. exists (S p). reflexivity.
Qed.

Lemma index_of_absent (l : list string) (x : string) :
  ~ In x l -> Py.index l x = Raise ValueError.
Proof.
  induction l as [|y l IH]; cbn [Py.index In]; [reflexivity|].
  intros H. destruct (String.eqb y x) eqn:Heq.
  - apply String.eqb_eq in Heq. tauto.
  - rewrite IH by tauto. reflexivity.
Qed.

Lemma index_resolves (l : list string) (x : string) :
  In x l -> exists p, Py.index l x = Ok p /\ first_position l x p.
Proof.
  intros H. destruct (index_of_member l x H) as [p Hp].
  exists p. split; [assumption | apply index_first_position, Hp].
Qed.

(** ** Token resolution *)

Section Resolution.

Local Open Scope string_scope.

Lemma resolve_blank_cases (vocabulary : list string) :
  (In "<ctc_blank>" vocabulary ->
   resolve_blank vocabulary = Py.index vocabulary "<ctc_blank>")
  /\ (~ In "<ctc_blank>" vocabulary ->
      resolve_blank vocabulary = Py.index vocabulary "<s>").
Proof.
  unfold resolve_blank. split; intros H.
  - apply contains_In in H. rewrite H. reflexivity.
  - apply contains_not_In in H. rewrite H. reflexivity.
Qed.

Lemma resolve_silence_cases (vocabulary : list string) :
  (In "<sep>" vocabulary ->
   resolve_silence vocabulary = Py.index vocabulary "<sep>")
  /\ (~ In "<sep>" vocabulary -> In "|" vocabulary ->
      resolve_silence vocabulary = Py.index vocabulary "|")
  /\ (~ In "<sep>" vocabulary -> ~ In "|" vocabulary ->
      resolve_silence vocabulary = Py.index vocabulary "</s>").
Proof.
  unfold resolve_silence. repeat split; intros.
  - rewrite (proj2 (contains_In _ _)) by assumption. reflexivity.
  - rewrite (proj2 (contains_not_In _ _)) by assumption.
    rewrite (proj2 (contains_In _ _)) by assumption. reflexivity.
  - rewrite !(proj2 (contains_not_In _ _)) by assumption. reflexivity.
Qed.

(** The names a blank can resolve to and the names a silence can resolve
    to are different strings, hence sit at different positions. *)
Lemma resolved_tokens_differ (vocabulary : list string) (b s : nat) :
  resolve_blank vocabulary = Ok b -> resolve_silence vocabulary = Ok s ->
  b <> s.
Proof.
  unfold resolve_blank, resolve_silence. intros Hb Hs ->.
  assert (Hbn : nth_error vocabulary s = Some "<ctc_blank>"
                \/ nth_error vocabulary s = Some "<s>").
  { destruct (Py.contains "<ctc_blank>" vocabulary);
      apply index_first_position in Hb; destruct Hb; auto. }
  assert (Hsn : nth_error vocabulary s = Some "<sep>"
                \/ nth_error vocabulary s = Some "|"
                \/ nth_error vocabulary s = Some "</s>").
  { destruct (Py.contains "<sep>" vocabulary);
      [|destruct (Py.contains "|" vocabulary)];
      apply index_first_position in Hs; destruct Hs; auto. }
  destruct Hbn as [Hbn|Hbn], Hsn as [Hsn|[Hsn|Hsn]];
    rewrite Hbn in Hsn; discriminate.
Qed.

End Resolution.

(** ** What a successful construction fixes *)

Section Constructed.

Variable lower : string -> string.
Variable load_words : string -> LEXICON.
Variable create_word_dict : LEXICON -> Dictionary.t.
Variable KenLM_new : string -> Dictionary.t -> KenLM.t.

Local Abbreviation init :=
  (__init__ lower load_words create_word_dict KenLM_new).

Lemma init_inversion (vocabulary : list string)
  (lmFile lexicon : option string) (lw ws ss : float) (subwords : bool)
  (self : W2lKenLMDecoder) :
  init vocabulary lmFile lexicon lw ws ss subwords = Ok self ->
  exists lmPath lexPath b s,
    lmFile = Some lmPath /\ lexicon = Some lexPath
    /\ resolve_blank vocabulary = Ok b
    /\ resolve_silence vocabulary = Ok s
    /\ blank self = Z.of_nat b /\ silence self = Z.of_nat s
    /\ frameSize self = 0.02%float
    /\ _subwords self = subwords
    /\ _wordDict self = create_word_dict (load_words lexPath)
    /\ options (_decoder self)
       = mkOptions 15 (Z.of_nat (List.length vocabulary)) 25.0
                   lw ws neg_infinity ss false CTC.
Proof.
  unfold __init__. intros H.
  destruct (py_assert (truthy lmFile && truthy lexicon)); cbn [bind] in H;
    [|discriminate].
  destruct lmFile as [lmPath|], lexicon as [lexPath|]; try discriminate.
  destruct (resolve_blank vocabulary) as [b|] eqn:Hb; cbn [bind] in H;
    [|discriminate].
  destruct (resolve_silence vocabulary) as [s|] eqn:Hs; cbn [bind] in H;
    [|discriminate].
  destruct (_initializeTrie _ _ _ _ _ _) as [tr|]; cbn [bind] in H;
    [|discriminate].
  inversion H; subst; cbn.
  exists lmPath, lexPath, b, s. repeat split; reflexivity.
Qed.

Lemma constructed_facts (self : W2lKenLMDecoder) :
  constructed lower load_words create_word_dict KenLM_new self ->
  blank self <> silence self /\ frameSize self = 0.02%float.
Proof.
  intros (v & lmF & lex & lw & ws & ss & sub & H).
  apply init_inversion in H.
  destruct H as (_ & _ & b & s & _ & _ & Hb & Hs & Hbe & Hse & Hf & _).
  split; [|assumption].
  rewrite Hbe, Hse. intros Heq. apply Nat2Z.inj in Heq.
  exact (resolved_tokens_differ _ Hb Hs Heq).
Qed.

End Constructed.

(** ** The fixture decoder is a constructed one *)

Lemma fixture_init :
  Fixture.init Fixture.vocabulary (Some "lm.bin"%string)
    (Some "words.lexicon"%string) 2 (-1) 0 false
  = Ok Fixture.decoder.
Proof. reflexivity. Qed.

Lemma fixture_subword_init :
  Fixture.init Fixture.vocabulary (Some "lm.bin"%string)
    (Some "pieces.lexicon"%string) 2 (-1) 0 true
  = Ok Fixture.subword_decoder.
Proof. reflexivity. Qed.

Lemma fixture_constructed :
  constructed Fixture.lower Fixture.load_words Fixture.create_word_dict
    Fixture.KenLM_new Fixture.decoder.
Proof.
  exists Fixture.vocabulary, (Some "lm.bin"%string),
    (Some "words.lexicon"%string), 2%float, (-1)%float, 0%float, false.
  reflexivity.
Defined.

(** ** The blank and silence indices *)

(** C3.  Token resolution.  When the vocabulary holds ["<ctc_blank>"], the
    blank index is that token's first position; when it does not but holds
    ["<s>"], the blank index is the first position of ["<s>"].  The silence
    index is the first position of ["<sep>"] if present, else of ["|"] if
    present, else of ["</s>"] if present.  A constructed decoder carries
    exactly these two resolved indices. *)
Theorem token_resolution_fallback (vocabulary : list string) :
  (In "<ctc_blank>"%string vocabulary ->
   exists p, resolve_blank vocabulary = Ok p
             /\ first_position vocabulary "<ctc_blank>" p)
  /\ (~ In "<ctc_blank>"%string vocabulary -> In "<s>"%string vocabulary ->
      exists p, resolve_blank vocabulary = Ok p
                /\ first_position vocabulary "<s>" p)
  /\ (In "<sep>"%string vocabulary ->
      exists p, resolve_silence vocabulary = Ok p
                /\ first_position vocabulary "<sep>" p)
  /\ (~ In "<sep>"%string vocabulary -> In "|"%string vocabulary ->
      exists p, resolve_silence vocabulary = Ok p
                /\ first_position vocabulary "|" p)
  /\ (~ In "<sep>"%string vocabulary -> ~ In "|"%string vocabulary ->
      In "</s>"%string vocabulary ->
      exists p, resolve_silence vocabulary = Ok p
                /\ first_position vocabulary "</s>" p)
  /\ (forall lower load_words create_word_dict KenLM_new
             lmFile lexicon lw ws ss subwords self,
         __init__ lower load_words create_word_dict KenLM_new
                  vocabulary lmFile lexicon lw ws ss subwords = Ok self ->
         exists b s,
           resolve_blank vocabulary = Ok b
           /\ resolve_silence vocabulary = Ok s
           /\ blank self = Z.of_nat b /\ silence self = Z.of_nat s).
Proof.
  destruct (resolve_blank_cases vocabulary) as [Hb1 Hb2].
  destruct (resolve_silence_cases vocabulary) as [Hs1 [Hs2 Hs3]].
  split; [|split; [|split; [|split; [|split]]]].
  - intros H. rewrite (Hb1 H). apply index_resolves, H.
  - intros Hn H. rewrite (Hb2 Hn). apply index_resolves, H.
  - intros H. rewrite (Hs1 H). apply index_resolves, H.
  - intros Hn H. rewrite (Hs2 Hn H). apply index_resolves, H.
  - intros Hn1 Hn2 H. rewrite (Hs3 Hn1 Hn2). apply index_resolves, H.
  - intros lower load_words create_word_dict KenLM_new
      lmFile lexicon lw ws ss subwords self H.
    apply init_inversion in H.
    destruct H as (_ & _ & b & s & _ & _ & Hb & Hs & Hbe & Hse & _).
    exists b, s. repeat split; assumption.
Qed.

Lemma token_resolution_fallback_witness :
  (exists p, resolve_blank ["<s>"; "|"; "<unk>"; "a"]%string = Ok p
             /\ first_position ["<s>"; "|"; "<unk>"; "a"]%string "<s>" p)
  /\ (exists p, resolve_silence ["<s>"; "|"; "<unk>"; "a"]%string = Ok p
                /\ first_position ["<s>"; "|"; "<unk>"; "a"]%string "|" p).
Proof.
  split.
  - apply (proj1 (proj2 (token_resolution_fallback
                           ["<s>"; "|"; "<unk>"; "a"]%string))).
    + apply contains_not_In. reflexivity.
    + apply contains_In. reflexivity.
  - apply (proj1 (proj2 (proj2 (proj2 (token_resolution_fallback
                           ["<s>"; "|"; "<unk>"; "a"]%string))))).
    + apply contains_not_In. reflexivity.
    + apply contains_In. reflexivity.
Defined.

(** ** Running the scan on an alignment with symbolic tokens *)

Ltac eqb_facts :=
  repeat first
    [ rewrite Z.eqb_refl
    | rewrite (proj2 (Z.eqb_neq _ _))
        by (assumption || (apply not_eq_sym; assumption)) ].

Ltac run_scan :=
  unfold _getWordsFrames; cbn [_getWordsFrames_loop];
  repeat (rewrite body_in_range by (cbn [List.length]; lia); cbn [bind]);
  unfold scan_step, prev_token, scan0;
  repeat (cbn [nth last timesteps wordFrames wordFound negb andb app];
          eqb_facts).

Lemma collapse_left (self : W2lKenLMDecoder) (a : Z) :
  blank self <> silence self -> a <> blank self -> a <> silence self ->
  _getWordsFrames self [a; a; blank self; a; silence self] = Ok [[0; 1; 3]].
Proof. intros Hbs Hab Has. run_scan. reflexivity. Qed.

Lemma collapse_right (self : W2lKenLMDecoder) (a : Z) :
  blank self <> silence self -> a <> blank self -> a <> silence self ->
  _getWordsFrames self [a; blank self; a; a; silence self] = Ok [[0; 2; 3]].
Proof. intros Hbs Hab Has. run_scan. reflexivity. Qed.

(** C1.  For a constructed decoder and a regular token [a] (neither blank
    nor silence), the alignments [[a, a, blank, a, sil]] and
    [[a, blank, a, a, sil]] each give exactly one run; the two runs start at
    the same frame (0) and end at the same frame (3), and they get the same
    time interval. *)
Theorem ctc_collapsing_same_boundary
  (lower : string -> string) (load_words : string -> LEXICON)
  (create_word_dict : LEXICON -> Dictionary.t)
  (KenLM_new : string -> Dictionary.t -> KenLM.t)
  (self : W2lKenLMDecoder) (a : Z) :
  constructed lower load_words create_word_dict KenLM_new self ->
  a <> blank self -> a <> silence self ->
  exists run1 run2 iv,
    _getWordsFrames self [a; a; blank self; a; silence self] = Ok [run1]
    /\ _getWordsFrames self [a; blank self; a; a; silence self] = Ok [run2]
    /\ hd_error run1 = Some 0 /\ hd_error run2 = Some 0
    /\ last run1 0 = 3 /\ last run2 0 = 3
    /\ _getWordTimestamps self [a; a; blank self; a; silence self]
       = Ok ([run1], [iv])
    /\ _getWordTimestamps self [a; blank self; a; a; silence self]
       = Ok ([run2], [iv])
    /\ iv = ((Py.float_of_int 0 * 0.02)%float,
             (Py.float_of_int 3 * 0.02 + 0.02)%float).
Proof.
  intros Hc Hab Has.
  destruct (constructed_facts Hc) as [Hbs Hfs].
  pose proof (@collapse_left self a Hbs Hab Has) as H1.
  pose proof (@collapse_right self a Hbs Hab Has) as H2.
  exists [0; 1; 3], [0; 2; 3],
    ((Py.float_of_int 0 * 0.02)%float,
     (Py.float_of_int 3 * 0.02 + 0.02)%float).
  repeat split; try assumption.
  - unfold _getWordTimestamps. rewrite H1. cbn [bind mapM].
    rewrite time_interval_cons. cbn [bind last].
    unfold _getFrameTime. rewrite Hfs. reflexivity.
  - unfold _getWordTimestamps. rewrite H2. cbn [bind mapM].
    rewrite time_interval_cons. cbn [bind last].
    unfold _getFrameTime. rewrite Hfs. reflexivity.
Qed.

Lemma ctc_collapsing_same_boundary_witness :
  exists run1 run2 iv,
    _getWordsFrames Fixture.decoder [3; 3; 0; 3; 1]%Z = Ok [run1]
    /\ _getWordsFrames Fixture.decoder [3; 0; 3; 3; 1]%Z = Ok [run2]
    /\ hd_error run1 = Some 0 /\ hd_error run2 = Some 0
    /\ last run1 0 = 3 /\ last run2 0 = 3
    /\ _getWordTimestamps Fixture.decoder [3; 3; 0; 3; 1]%Z
       = Ok ([run1], [iv])
    /\ _getWordTimestamps Fixture.decoder [3; 0; 3; 3; 1]%Z
       = Ok ([run2], [iv])
    /\ iv = ((Py.float_of_int 0 * 0.02)%float,
             (Py.float_of_int 3 * 0.02 + 0.02)%float).
Proof.
  apply (@ctc_collapsing_same_boundary Fixture.lower Fixture.load_words
           Fixture.create_word_dict Fixture.KenLM_new Fixture.decoder 3%Z).
  - exact fixture_constructed.
  - cbn. lia.
  - cbn. lia.
Defined.

(** The two runs are not the same list of frames: they differ in the frame
    kept between the first and the last. *)
Lemma collapsed_runs_differ_inside (self : W2lKenLMDecoder) (a : Z) :
  blank self <> silence self -> a <> blank self -> a <> silence self ->
  _getWordsFrames self [a; a; blank self; a; silence self]
  <> _getWordsFrames self [a; blank self; a; a; silence self].
Proof.
  intros Hbs Hab Has.
  rewrite (@collapse_left self a Hbs Hab Has), (@collapse_right self a Hbs Hab Has).
  discriminate.
Qed.

(** C2.  For a constructed decoder, the interval of a non-empty run whose
    first frame is [f] and whose last frame is [l] is
    [(f * 0.02, l * 0.02 + 0.02)], in binary64 arithmetic. *)
Theorem time_interval_of_run
  (lower : string -> string) (load_words : string -> LEXICON)
  (create_word_dict : LEXICON -> Dictionary.t)
  (KenLM_new : string -> Dictionary.t -> KenLM.t)
  (self : W2lKenLMDecoder) (frames : list nat) (f l : nat) :
  constructed lower load_words create_word_dict KenLM_new self ->
  hd_error frames = Some f -> last frames f = l ->
  _getTimeInterval self frames
  = Ok ((Py.float_of_int f * 0.02)%float,
        (Py.float_of_int l * 0.02 + 0.02)%float).
Proof.
  intros Hc Hf Hl.
  destruct (constructed_facts Hc) as [_ Hfs].
  destruct frames as [|f' rest]; [discriminate|].
  inversion Hf; subst f'. rewrite time_interval_cons.
  unfold _getFrameTime. rewrite Hfs, Hl. reflexivity.
Qed.

Lemma time_interval_of_run_witness :
  _getTimeInterval Fixture.decoder [0; 1; 2; 3; 4]
  = Ok ((Py.float_of_int 0 * 0.02)%float,
        (Py.float_of_int 4 * 0.02 + 0.02)%float).
Proof.
  apply (@time_interval_of_run Fixture.lower Fixture.load_words
           Fixture.create_word_dict Fixture.KenLM_new Fixture.decoder
           [0; 1; 2; 3; 4] 0 4).
  - exact fixture_constructed.
  - reflexivity.
  - reflexivity.
Defined.

(** The same interval as decimal values: frames 0 to 4 span [0.0, 0.1]. *)
Lemma time_interval_of_five_frames :
  _getTimeInterval Fixture.decoder [0; 1; 2; 3; 4]
  = Ok (0%float, 0.1%float).
Proof. vm_compute. reflexivity. Qed.

(** ** Decoder options *)

(** C6, as the code has it.  A successful construction fixes [beam_size] to
    15 and [beam_threshold] to 25.0, sets [beam_size_token] to the size of
    the vocabulary, and copies the caller's [lm_weight], [word_score] and
    [sil_score] into the options unchanged.  The three caller-supplied values
    are not validated: the construction succeeds for any other three floats
    as well. *)
Theorem decoder_options_of_construction
  (lower : string -> string) (load_words : string -> LEXICON)
  (create_word_dict : LEXICON -> Dictionary.t)
  (KenLM_new : string -> Dictionary.t -> KenLM.t)
  (vocabulary : list string) (lmFile lexicon : option string)
  (lw ws ss : float) (subwords : bool) (self : W2lKenLMDecoder) :
  __init__ lower load_words create_word_dict KenLM_new
           vocabulary lmFile lexicon lw ws ss subwords = Ok self ->
  beam_size (options (_decoder self)) = 15%Z
  /\ beam_size_token (options (_decoder self))
     = Z.of_nat (List.length vocabulary)
  /\ beam_threshold (options (_decoder self)) = 25%float
  /\ lm_weight (options (_decoder self)) = lw
  /\ word_score (options (_decoder self)) = ws
  /\ sil_score (options (_decoder self)) = ss
  /\ forall lw' ws' ss' : float,
      exists self',
        __init__ lower load_words create_word_dict KenLM_new
                 vocabulary lmFile lexicon lw' ws' ss' subwords = Ok self'.
Proof.
  intros H. pose proof (init_inversion _ _ _ _ _ _ _ _ _ _ _ H) as Hinv.
  destruct Hinv as (? & ? & ? & ? & _ & _ & _ & _ & _ & _ & _ & _ & _ & Ho).
  rewrite Ho. cbn. repeat split.
  intros lw' ws' ss'. unfold __init__ in *.
  destruct (py_assert (truthy lmFile && truthy lexicon)); cbn [bind] in *;
    [|discriminate].
  destruct lmFile, lexicon; try discriminate.
  destruct (resolve_blank vocabulary); cbn [bind] in *; [|discriminate].
  destruct (resolve_silence vocabulary); cbn [bind] in *; [|discriminate].
  destruct (_initializeTrie _ _ _ _ _ _); cbn [bind] in *; [|discriminate].
  eexists. reflexivity.
Qed.

Lemma decoder_options_of_construction_witness :
  beam_size (options (_decoder Fixture.decoder)) = 15%Z
  /\ beam_size_token (options (_decoder Fixture.decoder))
     = Z.of_nat (List.length Fixture.vocabulary)
  /\ beam_threshold (options (_decoder Fixture.decoder)) = 25%float
  /\ lm_weight (options (_decoder Fixture.decoder)) = 2%float
  /\ word_score (options (_decoder Fixture.decoder)) = (-1)%float
  /\ sil_score (options (_decoder Fixture.decoder)) = 0%float
  /\ forall lw' ws' ss' : float,
      exists self',
        Fixture.init Fixture.vocabulary (Some "lm.bin"%string)
          (Some "words.lexicon"%string) lw' ws' ss' false = Ok self'.
Proof.
  apply (@decoder_options_of_construction Fixture.lower Fixture.load_words
           Fixture.create_word_dict Fixture.KenLM_new Fixture.vocabulary
           (Some "lm.bin"%string) (Some "words.lexicon"%string)
           2%float (-1)%float 0%float false Fixture.decoder).
  reflexivity.
Defined.

(** C6 as stated fails: a construction call with an infinite [lm_weight] and
    a NaN [word_score] is accepted and the options carry them, while
    [beam_size] and [beam_threshold] are the constants 15 and 25.0, which no
    argument of the call sets. *)
Lemma tuning_parameters_not_validated :
  exists self,
    Fixture.init Fixture.vocabulary (Some "lm.bin"%string)
      (Some "words.lexicon"%string) infinity nan 0 false = Ok self
    /\ PrimFloat.is_finite (lm_weight (options (_decoder self))) = false
    /\ PrimFloat.is_finite (word_score (options (_decoder self))) = false
    /\ beam_size (options (_decoder self)) = 15%Z
    /\ beam_threshold (options (_decoder self)) = 25%float.
Proof.
  eexists. split; [reflexivity|]. repeat split.
Qed.

(** ** Unknown tokens in a spelling *)

Section UnknownTokens.

Variable lower : string -> string.
Variable load_words : string -> LEXICON.
Variable create_word_dict : LEXICON -> Dictionary.t.
Variable KenLM_new : string -> Dictionary.t -> KenLM.t.

Lemma Forall2_In_left (A B : Type) (R : A -> B -> Prop) (l : list A)
  (l' : list B) (x : A) :
  Forall2 R l l' -> In x l -> exists y, In y l' /\ R x y.
Proof.
  induction 1 as [|a b l l' Hab _ IH]; cbn [In]; [tauto|].
  intros [->|Hin].
  - exists b. split; [left; reflexivity | assumption].
  - destruct (IH Hin) as [y [Hy HR]]. exists y. split; [right|]; assumption.
Qed.

Lemma spelling_raises (vocabulary : list string) (unkWord : nat)
  (wordIdx : Z) (score : float) (spelling : list string) (token : string) :
  Py.index vocabulary "<unk>" = Ok unkWord ->
  In token spelling -> unresolvable lower vocabulary token ->
  forall trie,
    raises (_initializeTrie_spelling lower vocabulary unkWord wordIdx score
              trie spelling).
Proof.
  intros Hunk Hin Hbad trie. unfold _initializeTrie_spelling.
  destruct (spelling_indices lower vocabulary spelling) as [idxs|e] eqn:Hidx;
    cbn [bind]; [|exists e; reflexivity].
  apply mapM_Forall2 in Hidx.
  destruct (@Forall2_In_left _ _ _ _ _ token Hidx Hin) as [i [Hi Htok]].
  destruct Hbad as [Habsent|Hisunk].
  - rewrite (index_of_absent _ _ Habsent) in Htok. discriminate.
  - rewrite Hisunk, Hunk in Htok. inversion Htok; subst i.
    assert (Hc : Py.contains_nat unkWord idxs = true).
    { unfold Py.contains_nat. apply existsb_exists.
      exists unkWord. split; [assumption | apply Nat.eqb_refl]. }
    rewrite Hc. exists AssertionError. reflexivity.
Qed.

Lemma initializeTrie_raises (silence : Z) (wordDict : Dictionary.t)
  (vocabulary : list string) (languageModel : KenLM.t) (lexicon : LEXICON) :
  has_unresolvable_token lower vocabulary lexicon ->
  raises (_initializeTrie lower silence wordDict vocabulary languageModel
            lexicon).
Proof.
  intros (word & spellings & spelling & token & Hw & Hs & Ht & Hbad).
  unfold _initializeTrie.
  destruct (Py.index vocabulary "<unk>") as [unkWord|e] eqn:Hunk;
    cbn [bind]; [|exists e; reflexivity].
  match goal with
  | |- raises (bind ?m _) => assert (Hr : raises m)
  end.
  { apply (@foldM_raises _ _ _ lexicon (word, spellings) Hw).
    intros tr. unfold _initializeTrie_word. cbn [fst snd].
    apply (@foldM_raises _ _ _ spellings spelling Hs).
    intros tr'. eapply spelling_raises; eassumption. }
  destruct Hr as [e ->]. exists e. reflexivity.
Qed.

Lemma init_raises (vocabulary : list string) (lmFile : option string)
  (lexicon : string) (lw ws ss : float) (subwords : bool) :
  has_unresolvable_token lower vocabulary (load_words lexicon) ->
  raises (__init__ lower load_words create_word_dict KenLM_new vocabulary
            lmFile (Some lexicon) lw ws ss subwords).
Proof.
  intros Hbad. unfold __init__.
  destruct (py_assert (truthy lmFile && truthy (Some lexicon))) as [[]|e];
    cbn [bind]; [|exists e; reflexivity].
  destruct lmFile as [lmPath|]; [|exists AssertionError; reflexivity].
  destruct (resolve_blank vocabulary) as [b|e]; cbn [bind];
    [|exists e; reflexivity].
  destruct (resolve_silence vocabulary) as [s|e]; cbn [bind];
    [|exists e; reflexivity].
  destruct (@initializeTrie_raises (Z.of_nat s)
              (create_word_dict (load_words lexicon)) vocabulary
              (KenLM_new lmPath (create_word_dict (load_words lexicon)))
              (load_words lexicon) Hbad) as [e ->].
  exists e. reflexivity.
Qed.

End UnknownTokens.

(** C4.  Spelling tokens are case-folded before they are looked up.  When
    some spelling of the lexicon holds a token that, so folded, is not in the
    vocabulary, or is the reserved ["<unk>"], building the trie raises, and so
    does the constructor: no decoder object comes to exist, so no decode can
    be attempted on it, and the token is not silently dropped. *)
Theorem unresolvable_token_aborts_construction
  (lower : string -> string) (load_words : string -> LEXICON)
  (create_word_dict : LEXICON -> Dictionary.t)
  (KenLM_new : string -> Dictionary.t -> KenLM.t)
  (vocabulary : list string) (lmFile : option string) (lexicon : string)
  (lw ws ss : float) (subwords : bool) :
  has_unresolvable_token lower vocabulary (load_words lexicon) ->
  (forall silence wordDict languageModel,
      raises (_initializeTrie lower silence wordDict vocabulary languageModel
                (load_words lexicon)))
  /\ raises (__init__ lower load_words create_word_dict KenLM_new vocabulary
               lmFile (Some lexicon) lw ws ss subwords)
  /\ forall self,
      __init__ lower load_words create_word_dict KenLM_new vocabulary
               lmFile (Some lexicon) lw ws ss subwords <> Ok self.
Proof.
  intros Hbad.
  assert (Hinit : raises (__init__ lower load_words create_word_dict
                            KenLM_new vocabulary lmFile (Some lexicon)
                            lw ws ss subwords))
    by (apply init_raises; assumption).
  split; [|split; [assumption|]].
  - intros silence wordDict languageModel.
    apply initializeTrie_raises. assumption.
  - intros self Hok. destruct Hinit as [e He]. congruence.
Qed.

Lemma unresolvable_token_aborts_construction_witness :
  (forall silence wordDict languageModel,
      raises (_initializeTrie Fixture.lower silence wordDict
                ["<s>"; "|"; "<unk>"; "a"]%string languageModel
                (Fixture.load_words "words.lexicon")))
  /\ raises (Fixture.init ["<s>"; "|"; "<unk>"; "a"]%string
               (Some "lm.bin"%string) (Some "words.lexicon"%string)
               2 (-1) 0 false)
  /\ forall self,
      Fixture.init ["<s>"; "|"; "<unk>"; "a"]%string
        (Some "lm.bin"%string) (Some "words.lexicon"%string)
        2 (-1) 0 false <> Ok self.
Proof.
  apply (@unresolvable_token_aborts_construction Fixture.lower
           Fixture.load_words Fixture.create_word_dict Fixture.KenLM_new
           ["<s>"; "|"; "<unk>"; "a"]%string (Some "lm.bin"%string)
           "words.lexicon"%string 2%float (-1)%float 0%float false).
  exists "ab"%string, [["a"; "b"]]%string, ["a"; "b"]%string, "b"%string.
  split; [left; reflexivity|].
  split; [left; reflexivity|].
  split; [right; left; reflexivity|].
  left. apply contains_not_In. reflexivity.
Defined.

(** Case folding at work: the tokens ["A"] and ["B"] of the capitals lexicon
    are not vocabulary entries as written, but their lower-cased forms are;
    the trie is built (the spelling is inserted under the indices of ["a"]
    and ["b"]) and the constructor returns a decoder. *)
Lemma capital_tokens_are_accepted :
  (exists word spellings spelling token,
      In (word, spellings) (Fixture.load_words "capitals.lexicon")
      /\ In spelling spellings /\ In token spelling
      /\ ~ In token Fixture.vocabulary)
  /\ (exists trie,
         _initializeTrie Fixture.lower 1 Fixture.wordDict Fixture.vocabulary
           (Fixture.KenLM_new "lm.bin" Fixture.wordDict)
           (Fixture.load_words "capitals.lexicon") = Ok trie
         /\ map (fun e => fst (fst e)) (Trie.entries trie) = [[3; 4]])
  /\ exists self,
      Fixture.init Fixture.vocabulary (Some "lm.bin"%string)
        (Some "capitals.lexicon"%string) 2 (-1) 0 false = Ok self.
Proof.
  split; [|split].
  - exists "AB"%string, [["A"; "B"]]%string, ["A"; "B"]%string, "A"%string.
    split; [left; reflexivity|].
    split; [left; reflexivity|].
    split; [left; reflexivity|].
    apply contains_not_In. reflexivity.
  - eexists. split; reflexivity.
  - eexists. reflexivity.
Qed.

(** ** Word pieces *)

Lemma append_assoc (a b c : string) :
  ((a ++ b) ++ c = a ++ (b ++ c))%string.
Proof. induction a as [|x a IH]; cbn; [reflexivity | rewrite IH; reflexivity]. Qed.

Lemma append_nil_r (a : string) : (a ++ "" = a)%string.
Proof. induction a as [|x a IH]; cbn; [reflexivity | rewrite IH; reflexivity]. Qed.

Lemma all_chars_app (p : ascii -> bool) (a b : string) :
  all_chars p (a ++ b)%string = all_chars p a && all_chars p b.
Proof.
  induction a as [|x a IH]; cbn; [reflexivity|].
  rewrite IH, andb_assoc. reflexivity.
Qed.

Lemma join_empty_cons (x : string) (l : list string) :
  Py.join EmptyString (x :: l) = (x ++ Py.join EmptyString l)%string.
Proof.
  destruct l as [|y l]; cbn [Py.join].
  - rewrite append_nil_r. reflexivity.
  - reflexivity.
Qed.

Lemma join_empty_app (l1 l2 : list string) :
  Py.join EmptyString (l1 ++ l2)
  = (Py.join EmptyString l1 ++ Py.join EmptyString l2)%string.
Proof.
  induction l1 as [|x l1 IH].
  - reflexivity.
  - rewrite <- app_comm_cons, !join_empty_cons, IH, append_assoc.
    reflexivity.
Qed.

Lemma replace_app (old : ascii) (new a b : string) :
  Py.replace old new (a ++ b)%string
  = (Py.replace old new a ++ Py.replace old new b)%string.
Proof.
  induction a as [|x a IH]; cbn [Py.replace String.append]; [reflexivity|].
  rewrite IH. destruct (Ascii.eqb x old); cbn [String.append].
  - rewrite append_assoc. reflexivity.
  - reflexivity.
Qed.

Lemma split_from_space (cur s1 s2 : string) (c : ascii) :
  Py.isspace c = true ->
  Py.split_from cur (s1 ++ String c s2)%string
  = Py.split_from cur s1 ++ Py.split_from EmptyString s2.
Proof.
  intros Hc. revert cur.
  induction s1 as [|d s1 IH]; intros cur; cbn [String.append Py.split_from].
  - rewrite Hc. reflexivity.
  - destruct (Py.isspace d).
    + rewrite IH, app_assoc. reflexivity.
    + apply IH.
Qed.

Lemma split_from_word (cur s : string) :
  all_chars (fun c => negb (Py.isspace c)) s = true ->
  Py.split_from cur s = Py.flush (cur ++ s)%string.
Proof.
  revert cur. induction s as [|c s IH]; intros cur H; cbn [Py.split_from].
  - rewrite append_nil_r. reflexivity.
  - cbn [all_chars] in H. apply andb_true_iff in H. destruct H as [Hc Hs].
    apply negb_true_iff in Hc. rewrite Hc, IH by assumption.
    rewrite append_assoc. reflexivity.
Qed.

Lemma replace_absent (old : ascii) (new s : string) :
  all_chars (fun c => negb (Ascii.eqb c old)) s = true ->
  Py.replace old new s = s.
Proof.
  induction s as [|c s IH]; cbn [all_chars Py.replace]; [reflexivity|].
  intros H. apply andb_true_iff in H. destruct H as [Hc Hs].
  apply negb_true_iff in Hc. rewrite Hc, IH by assumption. reflexivity.
Qed.

Lemma replace_underscore_free (s : string) :
  all_chars (fun c => negb (Ascii.eqb c underscore))
            (Py.replace underscore space s) = true.
Proof.
  induction s as [|c s IH]; cbn [Py.replace]; [reflexivity|].
  destruct (Ascii.eqb c underscore) eqn:Hc; cbn; rewrite ?Hc; exact IH.
Qed.

(** The words [split_from] returns are non-empty and made of the characters
    of [cur] and the non-space characters of [s]. *)
Lemma split_from_words (q : ascii -> bool) (s : string) :
  forall cur,
    all_chars q cur = true ->
    all_chars (fun c => Py.isspace c || q c) s = true ->
    all_chars (fun c => negb (Py.isspace c)) cur = true ->
    Forall (fun w => w <> EmptyString
                     /\ all_chars q w = true
                     /\ all_chars (fun c => negb (Py.isspace c)) w = true)
           (Py.split_from cur s).
Proof.
  assert (Hflush : forall cur,
             all_chars q cur = true ->
             all_chars (fun c => negb (Py.isspace c)) cur = true ->
             Forall (fun w => w <> EmptyString
                              /\ all_chars q w = true
                              /\ all_chars (fun c => negb (Py.isspace c)) w
                                 = true)
                    (Py.flush cur)).
  { intros [|c cur] Hq Hsp; cbn [Py.flush]; constructor; [|constructor].
    repeat split; [discriminate | assumption | assumption]. }
  induction s as [|c s IH]; intros cur Hcur Hs Hsp; cbn [Py.split_from].
  - apply Hflush; assumption.
  - cbn [all_chars] in Hs. apply andb_true_iff in Hs. destruct Hs as [Hc Hs].
    destruct (Py.isspace c) eqn:Hspc.
    + apply Forall_app. split; [apply Hflush; assumption|].
      apply IH; [reflexivity | assumption | reflexivity].
    + cbn [orb] in Hc. apply IH; [|assumption|].
      * rewrite all_chars_app. cbn [all_chars]. rewrite Hcur, Hc. reflexivity.
      * rewrite all_chars_app. cbn [all_chars]. rewrite Hsp, Hspc. reflexivity.
Qed.

(** *** Whitespace of two and three bytes *)

Lemma space_is_no_part_of_wide (c d : ascii) :
  Py.isspace2 c " " = false /\ Py.isspace2 " " c = false
  /\ Py.isspace3 " " c d = false /\ Py.isspace3 c " " d = false
  /\ Py.isspace3 c d " " = false.
Proof.
  unfold Py.isspace2, Py.isspace3.
  change (nat_of_ascii " "%char) with 32. cbv zeta.
  change (32 =? 194) with false. change (32 =? 133) with false.
  change (32 =? 160) with false. change (32 =? 225) with false.
  change (32 =? 226) with false. change (32 =? 227) with false.
  change (32 =? 154) with false. change (32 =? 128) with false.
  change (32 =? 129) with false. change (32 =? 168) with false.
  change (32 =? 169) with false. change (32 =? 175) with false.
  change (32 =? 159) with false. change (128 <=? 32) with false.
  repeat split;
    repeat (match goal with
            | |- context [nat_of_ascii ?x =? ?k] =>
                destruct (nat_of_ascii x =? k)
            | |- context [?k <=? nat_of_ascii ?x] =>
                destruct (k <=? nat_of_ascii x)
            | |- context [nat_of_ascii ?x <=? ?k] =>
                destruct (nat_of_ascii x <=? k)
            end; cbn [andb orb]);
    reflexivity.
Qed.

Lemma starts_wide_space (s : string) : starts_wide (String " " s) = false.
Proof.
  destruct s as [|c [|d s]]; cbn [starts_wide]; [reflexivity| |].
  - rewrite (proj1 (proj2 (space_is_no_part_of_wide c c))). reflexivity.
  - destruct (space_is_no_part_of_wide c d) as (_ & H2 & H3 & _).
    rewrite H2, H3. reflexivity.
Qed.

(** How [narrow] treats the first character. *)
Lemma narrow_cases (c : ascii) (s : string) :
  (exists c2 s2,
      s = String c2 s2 /\ Py.isspace2 c c2 = true
      /\ Py.narrow (String c s) = String " " (Py.narrow s2))
  \/ (exists c2 c3 s3,
         s = String c2 (String c3 s3)
         /\ Py.isspace2 c c2 = false /\ Py.isspace3 c c2 c3 = true
         /\ Py.narrow (String c s) = String " " (Py.narrow s3))
  \/ (starts_wide (String c s) = false
      /\ Py.narrow (String c s) = String c (Py.narrow s)).
Proof.
  destruct s as [|c2 [|c3 s3]]; cbn [Py.narrow starts_wide].
  - right. right. split; reflexivity.
  - destruct (Py.isspace2 c c2) eqn:H2.
    + left. exists c2, EmptyString. repeat split. assumption.
    + right. right. split; reflexivity.
  - destruct (Py.isspace2 c c2) eqn:H2.
    + left. exists c2, (String c3 s3). repeat split. assumption.
    + destruct (Py.isspace3 c c2 c3) eqn:H3.
      * right. left. exists c2, c3, s3. repeat split; assumption.
      * right. right. split; reflexivity.
Qed.

Lemma narrow_space (s : string) :
  Py.narrow (String " " s) = String " " (Py.narrow s).
Proof.
  destruct (narrow_cases " " s)
    as [(c2 & s2 & -> & H & _)|[(c2 & c3 & s3 & -> & _ & H & _)|[_ H]]].
  - rewrite (proj1 (proj2 (space_is_no_part_of_wide c2 c2))) in H.
    discriminate.
  - destruct (space_is_no_part_of_wide c2 c3) as (_ & _ & H3 & _).
    rewrite H3 in H. discriminate.
  - exact H.
Qed.

(** A space is never swallowed by a wider whitespace character before it. *)
Lemma narrow_app_space (a b : string) :
  Py.narrow (a ++ String " " b)%string
  = (Py.narrow a ++ String " " (Py.narrow b))%string.
Proof.
  assert (H : forall n a, String.length a <= n ->
                          Py.narrow (a ++ String " " b)%string
                          = (Py.narrow a ++ String " " (Py.narrow b))%string).
  { clear a. induction n as [|n IH]; intros a Hn.
    - destruct a; [|cbn in Hn; lia]. cbn [String.append Py.narrow].
      apply narrow_space.
    - destruct a as [|x a]; [apply narrow_space|].
      cbn [String.length] in Hn.
      destruct a as [|y a].
      + cbn [String.append].
        destruct (narrow_cases x (String " " b))
          as [(c2 & s2 & E & H2 & _)
             |[(c2 & c3 & s3 & E & _ & H3 & _)|[_ Hx]]].
        * inversion E; subst.
          rewrite (proj1 (space_is_no_part_of_wide x x)) in H2.
          discriminate.
        * inversion E; subst.
          destruct (space_is_no_part_of_wide x c3) as (_ & _ & _ & H4 & _).
          rewrite H4 in H3. discriminate.
        * rewrite Hx, narrow_space. reflexivity.
      + cbn [String.length] in Hn.
        destruct (narrow_cases x (String y a))
          as [(c2 & s2 & E & H2 & Hx)
             |[(c2 & c3 & s3 & E & H2 & H3 & Hx)|[Hw Hx]]].
        * inversion E; subst c2 s2. rewrite Hx.
          change ((String x (String y a) ++ String " " b)%string)
            with (String x (String y (a ++ String " " b))).
          cbn [Py.narrow]. rewrite H2. rewrite IH by lia. reflexivity.
        * inversion E; subst c2 a. rewrite Hx.
          change ((String x (String y (String c3 s3)) ++ String " " b)%string)
            with (String x (String y (String c3 (s3 ++ String " " b)))).
          cbn [Py.narrow]. rewrite H2, H3. rewrite IH by (cbn [String.length] in *; lia).
          reflexivity.
        * rewrite Hx.
          change ((String x (String y a) ++ String " " b)%string)
            with (String x (String y a ++ String " " b)).
          assert (Hw' : starts_wide (String x (String y a ++ String " " b))
                        = false).
          { cbn [starts_wide String.append] in Hw |- *.
            apply orb_false_iff in Hw. destruct Hw as [H2 H3].
            rewrite H2. cbn [orb].
            destruct a as [|z a]; cbn [String.append].
            - exact (proj2 (proj2 (proj2 (proj2
                       (space_is_no_part_of_wide x y))))).
            - exact H3. }
          destruct (narrow_cases x (String y a ++ String " " b))
            as [(c2 & s2 & E & H2 & _)
               |[(c2 & c3 & s3 & E & H2 & H3 & _)|[_ Hx']]].
          -- rewrite E in Hw'. cbn [starts_wide] in Hw'.
             rewrite H2 in Hw'. discriminate.
          -- rewrite E in Hw'. cbn [starts_wide] in Hw'.
             rewrite H2, H3 in Hw'. discriminate.
          -- rewrite Hx'. rewrite IH by (cbn [String.length] in *; lia). reflexivity. }
  apply (H (String.length a)). lia.
Qed.

Lemma no_whitespace_narrow (s : string) :
  no_whitespace s = true ->
  Py.narrow s = s /\ all_chars (fun c => negb (Py.isspace c)) s = true.
Proof.
  unfold no_whitespace. induction s as [|c s IH]; [split; reflexivity|].
  destruct (narrow_cases c s)
    as [(c2 & s2 & _ & _ & Hx)|[(c2 & c3 & s3 & _ & _ & _ & Hx)|[_ Hx]]];
    rewrite Hx; cbn [all_chars]; try discriminate.
  intros H. apply andb_true_iff in H. destruct H as [Hc Hs].
  destruct (IH Hs) as [Hn Ha]. rewrite Hn, Hc, Ha. split; reflexivity.
Qed.

Lemma wide_free_narrow (s : string) :
  wide_free s = true -> Py.narrow s = s.
Proof.
  induction s as [|c s IH]; [reflexivity|].
  cbn [wide_free]. intros H. apply andb_true_iff in H.
  destruct H as [Hw Hs]. apply negb_true_iff in Hw.
  destruct (narrow_cases c s)
    as [(c2 & s2 & -> & H2 & _)
       |[(c2 & c3 & s3 & -> & H2 & H3 & _)|[_ Hx]]].
  - cbn [starts_wide] in Hw. rewrite H2 in Hw. discriminate.
  - cbn [starts_wide] in Hw. rewrite H2, H3 in Hw. discriminate.
  - rewrite Hx, IH by assumption. reflexivity.
Qed.

Lemma starts_wide_narrow (c : ascii) (s : string) :
  starts_wide (String c s) = false ->
  starts_wide (String c (Py.narrow s)) = false.
Proof.
  destruct s as [|c2 s2]; [intros; reflexivity|].
  intros Hw. cbn [starts_wide] in Hw. apply orb_false_iff in Hw.
  destruct Hw as [H2 H3].
  destruct (narrow_cases c2 s2)
    as [(d & t & _ & _ & Hx)|[(d & e & t & _ & _ & _ & Hx)|[_ Hx]]];
    rewrite Hx; cbn [starts_wide].
  - rewrite (proj1 (space_is_no_part_of_wide c c)). cbn [orb].
    destruct (Py.narrow t) as [|c3 r]; [reflexivity|].
    exact (proj1 (proj2 (proj2 (proj2 (space_is_no_part_of_wide c c3))))).
  - rewrite (proj1 (space_is_no_part_of_wide c c)). cbn [orb].
    destruct (Py.narrow t) as [|c3 r]; [reflexivity|].
    exact (proj1 (proj2 (proj2 (proj2 (space_is_no_part_of_wide c c3))))).
  - rewrite H2. cbn [orb].
    destruct s2 as [|c3 s3]; [reflexivity|].
    destruct (narrow_cases c3 s3)
      as [(d & t & _ & _ & Hy)|[(d & e & t & _ & _ & _ & Hy)|[_ Hy]]];
      rewrite Hy.
    + exact (proj2 (proj2 (proj2 (proj2 (space_is_no_part_of_wide c c2))))).
    + exact (proj2 (proj2 (proj2 (proj2 (space_is_no_part_of_wide c c2))))).
    + exact H3.
Qed.

Lemma narrow_is_wide_free (s : string) : wide_free (Py.narrow s) = true.
Proof.
  assert (H : forall n s, String.length s <= n ->
                          wide_free (Py.narrow s) = true).
  { clear s. induction n as [|n IH]; intros s Hn.
    - destruct s; [reflexivity | cbn in Hn; lia].
    - destruct s as [|c s]; [reflexivity|]. cbn [String.length] in Hn.
      destruct (narrow_cases c s)
        as [(c2 & s2 & -> & _ & Hx)
           |[(c2 & c3 & s3 & -> & _ & _ & Hx)|[Hw Hx]]];
        rewrite Hx; cbn [wide_free].
      + rewrite starts_wide_space. cbn [negb andb].
        apply IH. cbn [String.length] in Hn. lia.
      + rewrite starts_wide_space. cbn [negb andb].
        apply IH. cbn [String.length] in Hn. lia.
      + rewrite (starts_wide_narrow _ _ Hw). cbn [negb andb].
        apply IH. lia. }
  apply (H (String.length s)). lia.
Qed.

Lemma starts_wide_app (a b : string) :
  starts_wide a = true -> starts_wide (a ++ b)%string = true.
Proof.
  destruct a as [|x [|y [|z a]]]; cbn [starts_wide String.append];
    try discriminate.
  - intros H. apply orb_true_iff in H. destruct H as [H|H];
      [|discriminate]. rewrite H. reflexivity.
  - intros H. exact H.
Qed.

Lemma wide_free_app (a b : string) :
  wide_free (a ++ b)%string = true ->
  wide_free a = true /\ wide_free b = true.
Proof.
  induction a as [|x a IH]; [intros H; split; [reflexivity | exact H]|].
  change ((String x a ++ b)%string) with (String x (a ++ b)).
  cbn [wide_free]. intros H. apply andb_true_iff in H.
  destruct H as [Hw Hs]. destruct (IH Hs) as [Ha Hb].
  split; [|assumption]. rewrite Ha, andb_true_r.
  apply negb_true_iff in Hw. apply negb_true_iff.
  destruct (starts_wide (String x a)) eqn:E; [|reflexivity].
  apply (starts_wide_app _ b) in E.
  change ((String x a ++ b)%string) with (String x (a ++ b)) in E.
  congruence.
Qed.

Lemma split_from_wide_free (s : string) :
  forall cur,
    wide_free (cur ++ s)%string = true ->
    Forall (fun w => wide_free w = true) (Py.split_from cur s).
Proof.
  induction s as [|c s IH]; intros cur H; cbn [Py.split_from].
  - rewrite append_nil_r in H.
    destruct cur; cbn [Py.flush]; repeat constructor. assumption.
  - destruct (Py.isspace c).
    + destruct (wide_free_app _ _ H) as [Hc Hs].
      cbn [wide_free] in Hs. apply andb_true_iff in Hs.
      apply Forall_app. split.
      * destruct cur; cbn [Py.flush]; repeat constructor. assumption.
      * apply IH. cbn [String.append]. tauto.
    + apply IH. rewrite append_assoc. exact H.
Qed.

Lemma narrow_all_chars (q : ascii -> bool) (s : string) :
  q " "%char = true -> all_chars q s = true ->
  all_chars q (Py.narrow s) = true.
Proof.
  intros Hq.
  assert (H : forall n s, String.length s <= n -> all_chars q s = true ->
                          all_chars q (Py.narrow s) = true).
  { clear s. induction n as [|n IH]; intros s Hn Hs.
    - destruct s; [reflexivity | cbn in Hn; lia].
    - destruct s as [|c s]; [reflexivity|]. cbn [String.length] in Hn.
      cbn [all_chars] in Hs. apply andb_true_iff in Hs.
      destruct Hs as [Hc Hs].
      destruct (narrow_cases c s)
        as [(c2 & s2 & -> & _ & Hx)
           |[(c2 & c3 & s3 & -> & _ & _ & Hx)|[_ Hx]]];
        rewrite Hx; cbn [all_chars].
      + rewrite Hq. cbn [andb]. apply IH; [cbn in Hn; lia|].
        cbn [all_chars] in Hs. apply andb_true_iff in Hs. tauto.
      + rewrite Hq. cbn [andb]. apply IH; [cbn in Hn; lia|].
        cbn [all_chars] in Hs. apply andb_true_iff in Hs.
        destruct Hs as [_ Hs]. apply andb_true_iff in Hs. tauto.
      + rewrite Hc. cbn [andb]. apply IH; [lia | assumption]. }
  apply (H (String.length s)). lia.
Qed.

(** *** Assembly *)

Lemma underscore_is_a_boundary (ps qs : list string) :
  process_word_piece (ps ++ ["_"%string] ++ qs)
  = process_word_piece ps ++ process_word_piece qs.
Proof.
  unfold process_word_piece, Py.split.
  rewrite !join_empty_app, !replace_app.
  change (Py.replace underscore space (Py.join EmptyString ["_"%string]))
    with (String " "%char EmptyString).
  cbn [String.append]. rewrite narrow_app_space.
  apply split_from_space. reflexivity.
Qed.

Lemma unmarked_pieces_attach (pieces : list string) :
  no_underscore (Py.join EmptyString pieces) = true ->
  no_whitespace (Py.join EmptyString pieces) = true ->
  Py.join EmptyString pieces <> EmptyString ->
  process_word_piece pieces = [Py.join EmptyString pieces].
Proof.
  intros Hu Hs Hne.
  destruct (no_whitespace_narrow _ Hs) as [Hn Ha].
  unfold process_word_piece, Py.split.
  rewrite replace_absent by exact Hu.
  rewrite Hn, split_from_word by exact Ha. cbn [String.append].
  destruct (Py.join EmptyString pieces); [congruence | reflexivity].
Qed.

Lemma split_words_are_clean (q : ascii -> bool) (s : string) :
  q " "%char = true -> all_chars q s = true ->
  Forall (fun w => w <> EmptyString /\ all_chars q w = true
                   /\ no_whitespace w = true)
         (Py.split s).
Proof.
  intros Hq Hs. unfold Py.split.
  pose proof (narrow_all_chars _ _ Hq Hs) as Hn.
  assert (Hw : Forall (fun w => wide_free w = true)
                      (Py.split_from EmptyString (Py.narrow s)))
    by (apply split_from_wide_free; cbn [String.append];
        apply narrow_is_wide_free).
  assert (Hc : Forall (fun w => w <> EmptyString /\ all_chars q w = true
                                /\ all_chars (fun c => negb (Py.isspace c)) w
                                   = true)
                      (Py.split_from EmptyString (Py.narrow s))).
  { apply split_from_words; try reflexivity.
    clear Hw. induction (Py.narrow s) as [|c t IH]; [reflexivity|].
    cbn [all_chars] in *. apply andb_true_iff in Hn. destruct Hn as [Hc Ht].
    rewrite Hc, orb_true_r. cbn [andb]. apply IH, Ht. }
  rewrite Forall_forall in *. intros w Hin.
  destruct (Hc w Hin) as (Hne & Hqw & Hsp).
  repeat split; try assumption.
  unfold no_whitespace. rewrite (wide_free_narrow _ (Hw w Hin)). exact Hsp.
Qed.

Lemma assembled_words_are_clean (pieces : list string) :
  Forall (fun w => w <> EmptyString /\ no_underscore w = true
                   /\ no_whitespace w = true)
         (process_word_piece pieces).
Proof.
  unfold process_word_piece.
  apply (@split_words_are_clean (fun c => negb (Ascii.eqb c underscore)));
    [reflexivity|].
  apply replace_underscore_free.
Qed.

(** C7, as the code has it.  In sub-word mode the hypothesis string is the
    single-space join of [process_word_piece] applied to the looked-up pieces:
    the pieces are concatenated with no separator, every underscore is
    replaced by a space, and the result is split on whitespace.  Hence an
    underscore always ends a word, pieces whose concatenation holds no
    underscore and no whitespace attach into one word, and no assembled word
    is empty or keeps an underscore or a whitespace character. *)
Theorem word_piece_assembly (self : W2lKenLMDecoder) (res : DecodeResult.t)
  (pieces : list string) :
  _subwords self = true ->
  word_entries self res = Ok pieces ->
  hypothesis_words self res
  = Ok (Py.join space
          (Py.split
             (Py.replace underscore space (Py.join EmptyString pieces))))
  /\ (forall ps qs,
         process_word_piece (ps ++ ["_"%string] ++ qs)
         = process_word_piece ps ++ process_word_piece qs)
  /\ (forall ps,
         no_underscore (Py.join EmptyString ps) = true ->
         no_whitespace (Py.join EmptyString ps) = true ->
         Py.join EmptyString ps <> EmptyString ->
         process_word_piece ps = [Py.join EmptyString ps])
  /\ (forall ps,
         Forall (fun w => w <> EmptyString /\ no_underscore w = true
                          /\ no_whitespace w = true)
                (process_word_piece ps)).
Proof.
  intros Hsub Hent. split; [|split; [|split]].
  - unfold hypothesis_words. rewrite Hsub, Hent. reflexivity.
  - exact underscore_is_a_boundary.
  - exact unmarked_pieces_attach.
  - exact assembled_words_are_clean.
Qed.

Lemma word_piece_assembly_witness :
  hypothesis_words Fixture.subword_decoder
    (DecodeResult.mk 0 [0; 1; -1; 2; 3]%Z [])
  = Ok (Py.join space
          (Py.split
             (Py.replace underscore space
                (Py.join EmptyString ["hel"; "lo_"; "wor"; "ld_"]%string))))
  /\ (forall ps qs,
         process_word_piece (ps ++ ["_"%string] ++ qs)
         = process_word_piece ps ++ process_word_piece qs)
  /\ (forall ps,
         no_underscore (Py.join EmptyString ps) = true ->
         no_whitespace (Py.join EmptyString ps) = true ->
         Py.join EmptyString ps <> EmptyString ->
         process_word_piece ps = [Py.join EmptyString ps])
  /\ (forall ps,
         Forall (fun w => w <> EmptyString /\ no_underscore w = true
                          /\ no_whitespace w = true)
                (process_word_piece ps)).
Proof.
  apply (@word_piece_assembly Fixture.subword_decoder
           (DecodeResult.mk 0 [0; 1; -1; 2; 3]%Z [])
           ["hel"; "lo_"; "wor"; "ld_"]%string).
  - reflexivity.
  - reflexivity.
Defined.

(** The pieces [hel lo_ wor ld_] assemble to the string [hello world]. *)
Lemma word_piece_example :
  hypothesis_words Fixture.subword_decoder
    (DecodeResult.mk 0 [0; 1; -1; 2; 3]%Z [])
  = Ok "hello world"%string.
Proof. reflexivity. Qed.

(** Whitespace of more than one byte splits as well: a no-break space
    (U+00A0, bytes 194 160) and an em space (U+2003, bytes 226 128 131)
    inside a piece each end a word. *)
Lemma wide_whitespace_example :
  process_word_piece
    [String "a" (String (ascii_of_nat 194) (String (ascii_of_nat 160)
       (String "b" (String (ascii_of_nat 226) (String (ascii_of_nat 128)
          (String (ascii_of_nat 131) "c"))))))]
  = ["a"; "b"; "c"]%string.
Proof. reflexivity. Qed.

(** C7 as stated fails: the code does not delete the marker.  On the pieces
    [hel lo_ wor ld_] the code returns two words where deleting the marker
    first returns one; and a piece carrying the marker is separated from the
    piece before it, not attached to it. *)
Lemma marker_is_not_deleted :
  process_word_piece ["hel"; "lo_"; "wor"; "ld_"]%string
  = ["hello"; "world"]%string
  /\ assemble_as_specified ["hel"; "lo_"; "wor"; "ld_"]%string
     = ["helloworld"]%string
  /\ process_word_piece ["hel"; "_lo"]%string = ["hel"; "lo"]%string
  /\ process_word_piece ["hel"; "lo"]%string = ["hello"]%string.
Proof. repeat split. Qed.

(** ** Post-processing a list of results *)

Lemma known_words_give_a_string (self : W2lKenLMDecoder)
  (res : DecodeResult.t) :
  words_known self res -> exists w, hypothesis_words self res = Ok w.
Proof.
  intros [entries He]. unfold hypothesis_words. rewrite He.
  destruct (negb (_subwords self)); eexists; reflexivity.
Qed.

Lemma post_process_from (self : W2lKenLMDecoder)
  (hypotesis : list DecodeResult.t) :
  Forall (words_known self) hypotesis ->
  forall acc,
  exists words wordsFrames timesteps,
    foldM (_postProcessHypothesis_body self) hypotesis acc
    = Ok (mkProcessed
            (out_words acc ++ words)
            (out_wordsFrames acc ++ wordsFrames)
            (out_scores acc ++ map DecodeResult.score hypotesis)
            (out_timesteps acc ++ timesteps))
    /\ Forall2 (fun res w => hypothesis_words self res = Ok w)
               hypotesis words
    /\ Forall2 (runs_of self) hypotesis wordsFrames
    /\ Forall2 (intervals_of self) wordsFrames timesteps.
Proof.
  induction 1 as [|res rest Hres _ IH]; intros acc.
  - exists [], [], []. cbn [foldM map]. rewrite !app_nil_r.
    destruct acc. repeat split; constructor.
  - destruct (word_timestamps_total self (DecodeResult.tokens res))
      as [wf [ti [Hwf [_ [Hts Hiv]]]]].
    destruct (known_words_give_a_string Hres) as [w Hw].
    cbn [foldM]. unfold _postProcessHypothesis_body at 1.
    rewrite Hw. cbn [bind]. rewrite Hts. cbn [bind fst snd].
    match goal with
    | |- context [foldM _ rest ?acc'] => destruct (IH acc')
        as [ws [wfs [tss [Hrun [Hws [Hruns Hivs]]]]]]
    end.
    exists (w :: ws), (wf :: wfs), (ti :: tss).
    rewrite Hrun. cbn [out_words out_wordsFrames out_scores out_timesteps map].
    rewrite <- !app_assoc. cbn [app].
    repeat split; constructor; assumption.
Qed.

(** A word id the dictionary does not hold makes post-processing raise, as
    flashlight's [get_entry] does. *)
Lemma post_process_raises_on_unknown_word :
  _postProcessHypothesis Fixture.decoder
    [DecodeResult.mk 0 [7]%Z [3; 3; 4; 1]%Z] = Raise ValueError.
Proof. reflexivity. Qed.

(** C5, as the code has it.  For hypotheses whose word ids are entries of
    the word dictionary, post-processing returns, for the k-th result, the
    word string, the score, the frame runs of the result's alignment and, for
    each run and in the order of the runs, the interval of that run: there
    are exactly as many intervals as runs.  This holds in word mode and in
    sub-word mode alike; the number of runs is determined by the alignment
    alone. *)
Theorem one_interval_per_run (self : W2lKenLMDecoder)
  (hypotesis : list DecodeResult.t) :
  Forall (words_known self) hypotesis ->
  exists words wordsFrames timesteps,
    _postProcessHypothesis self hypotesis
    = Ok (mkProcessed words wordsFrames
            (map DecodeResult.score hypotesis) timesteps)
    /\ Forall2 (fun res w => hypothesis_words self res = Ok w)
               hypotesis words
    /\ Forall2 (runs_of self) hypotesis wordsFrames
    /\ Forall2 (intervals_of self) wordsFrames timesteps
    /\ map (@List.length _) timesteps = map (@List.length _) wordsFrames.
Proof.
  intros Hknown.
  destruct (post_process_from Hknown (mkProcessed [] [] [] []))
    as [ws [wfs [tss [Hrun [Hws [Hruns Hivs]]]]]].
  exists ws, wfs, tss. split; [exact Hrun|]. split; [exact Hws|].
  split; [exact Hruns|]. split; [exact Hivs|].
  clear Hrun Hruns. induction Hivs as [|wf ts wfs tss H _ IH]; [reflexivity|].
  cbn [map]. rewrite IH. f_equal. symmetry. exact (Forall2_length H).
Qed.

Lemma one_interval_per_run_witness :
  exists words wordsFrames timesteps,
    _postProcessHypothesis Fixture.decoder
      [DecodeResult.mk 0 [0]%Z [3; 3; 4; 1]%Z]
    = Ok (mkProcessed words wordsFrames
            (map DecodeResult.score
               [DecodeResult.mk 0 [0]%Z [3; 3; 4; 1]%Z]) timesteps)
    /\ Forall2 (fun res w => hypothesis_words Fixture.decoder res = Ok w)
               [DecodeResult.mk 0 [0]%Z [3; 3; 4; 1]%Z] words
    /\ Forall2 (runs_of Fixture.decoder)
               [DecodeResult.mk 0 [0]%Z [3; 3; 4; 1]%Z] wordsFrames
    /\ Forall2 (intervals_of Fixture.decoder) wordsFrames timesteps
    /\ map (@List.length _) timesteps = map (@List.length _) wordsFrames.
Proof.
  apply (@one_interval_per_run Fixture.decoder
           [DecodeResult.mk 0 [0]%Z [3; 3; 4; 1]%Z]).
  constructor; [|constructor].
  exists ["ab"%string]. reflexivity.
Defined.

(** C5 as stated fails.  In word mode, the alignment [a a b b blank] with
    the single word id 0 gives the one-word string ["ab"] and no interval
    (the run is never closed by a silence).  In sub-word mode, the pieces
    [hel lo_] assemble to one word while the alignment [a | b |] gives two
    runs and two intervals. *)
Lemma intervals_and_words_can_disagree :
  (exists out,
      _postProcessHypothesis Fixture.decoder
        [DecodeResult.mk 0 [0]%Z [3; 3; 4; 4; 0]%Z] = Ok out
      /\ out_words out = ["ab"%string]
      /\ out_timesteps out = [[]]
      /\ word_count Fixture.decoder
           (DecodeResult.mk 0 [0]%Z [3; 3; 4; 4; 0]%Z) = Ok 1)
  /\ (exists out,
         _postProcessHypothesis Fixture.subword_decoder
           [DecodeResult.mk 0 [0; 1]%Z [3; 1; 4; 1]%Z] = Ok out
         /\ out_words out = ["hello"%string]
         /\ map (@List.length _) (out_timesteps out) = [2]
         /\ word_count Fixture.subword_decoder
              (DecodeResult.mk 0 [0; 1]%Z [3; 1; 4; 1]%Z) = Ok 1).
Proof.
  split; eexists; (split; [reflexivity|]); repeat split.
Qed.

(** * Further properties of the frame-span scan *)

Lemma firstn_snoc_nth (A : Type) (l : list A) (i : nat) (x : A) :
  nth_error l i = Some x -> firstn (S i) l = firstn i l ++ [x].
Proof.
  revert i. induction l as [|y l IH]; intros [|i] H; cbn in H;
    try discriminate.
  - inversion H. reflexivity.
  - cbn [firstn app]. rewrite <- (IH i H). reflexivity.
Qed.

Lemma sorted_snoc (l : list nat) (i : nat) :
  StronglySorted lt l -> Forall (fun p => p < i) l ->
  StronglySorted lt (l ++ [i]).
Proof.
  induction 1 as [|x l Hs IH Hx]; intros Hb; cbn [app].
  - repeat constructor.
  - inversion Hb; subst. constructor; [apply IH; assumption|].
    apply Forall_app. split; [assumption | repeat constructor; assumption].
Qed.

Lemma sorted_app_left (a b : list nat) :
  StronglySorted lt (a ++ b) -> StronglySorted lt a.
Proof.
  induction a as [|x a IH]; cbn [app]; intros H; [constructor|].
  inversion H; subst. constructor; [apply IH; assumption|].
  match goal with
  | Hx : Forall _ (a ++ b) |- _ => apply Forall_app in Hx; tauto
  end.
Qed.

Section RunsOfAnAlignment.

Variable self : W2lKenLMDecoder.
Variable tokenIdxs : list Z.

Lemma scan_step_regular (i : nat) (tok : Z) (st : scan) :
  nth_error tokenIdxs i = Some tok ->
  frames_regular self tokenIdxs st ->
  frames_regular self tokenIdxs
    (scan_step self (prev_token tokenIdxs i) st i tok).
Proof.
  intros Hnth [Hw Ht]. unfold scan_step, frames_regular.
  destruct (tok =? blank self)%Z eqn:Hb; [split; assumption|].
  apply Z.eqb_neq in Hb.
  destruct (tok =? prev_token tokenIdxs i)%Z,
    (tok =? silence self)%Z eqn:Hs, (wordFound st);
    cbn [negb andb timesteps wordFrames wordFound];
    try (split; assumption).
  all: try (split; [constructor|];
            apply Forall_app; split; [assumption|];
            constructor; [assumption | constructor]).
  all: apply Z.eqb_neq in Hs.
  all: split; [|assumption].
  all: apply Forall_app; split; [assumption|].
  all: constructor; [|constructor].
  all: exists tok; repeat split; assumption.
Qed.

Lemma scan_step_sorted (prev : Z) (i : nat) (tok : Z) (st : scan) :
  frames_sorted i st ->
  frames_sorted (S i) (scan_step self prev st i tok).
Proof.
  intros [Hs Hb].
  assert (Hb' : Forall (fun p => p < S i)
                       (List.concat (timesteps st) ++ wordFrames st)).
  { eapply Forall_impl; [|exact Hb]. cbn. intros; lia. }
  assert (Happ : frames_sorted (S i)
                   (mkScan (timesteps st) (wordFrames st ++ [i]) true)).
  { unfold frames_sorted. cbn [timesteps wordFrames]. rewrite app_assoc.
    split; [apply sorted_snoc; assumption|].
    apply Forall_app. split; [assumption | repeat constructor]. }
  assert (Hclose : frames_sorted (S i)
                     (mkScan (timesteps st ++ [wordFrames st]) [] false)).
  { unfold frames_sorted. cbn [timesteps wordFrames].
    rewrite concat_app. cbn [List.concat]. rewrite !app_nil_r.
    split; assumption. }
  unfold scan_step.
  destruct (tok =? blank self)%Z; [split; assumption|].
  destruct (tok =? prev)%Z, (tok =? silence self)%Z,
    (wordFound st) eqn:Hf; cbn [negb andb];
    try (split; assumption); try exact Happ; try exact Hclose.
Qed.

Lemma scan_step_counted (prev : Z) (i : nat) (tok : Z) (st : scan) :
  nth_error tokenIdxs i = Some tok ->
  runs_counted self tokenIdxs i st ->
  runs_counted self tokenIdxs (S i) (scan_step self prev st i tok).
Proof.
  unfold runs_counted. intros Hnth Hc.
  rewrite (firstn_snoc_nth _ _ Hnth), count_occ_app.
  unfold scan_step.
  destruct (tok =? blank self)%Z; [lia|].
  destruct (tok =? prev)%Z, (tok =? silence self)%Z eqn:Hs,
    (wordFound st); cbn [negb andb timesteps]; try lia.
  all: apply Z.eqb_eq in Hs; subst tok.
  all: rewrite length_app; cbn [List.length count_occ].
  all: destruct (Z.eq_dec (silence self) (silence self)); [lia | congruence].
Qed.

End RunsOfAnAlignment.

Section RunsAreBlocks.

Variable self : W2lKenLMDecoder.
Variable tokenIdxs : list Z.

Lemma scan_step_runs (i : nat) (tok : Z) (st : scan) :
  nth_error tokenIdxs i = Some tok ->
  open_run self tokenIdxs i st
  /\ Forall (closed_run self tokenIdxs) (timesteps st) ->
  open_run self tokenIdxs (S i)
    (scan_step self (prev_token tokenIdxs i) st i tok)
  /\ Forall (closed_run self tokenIdxs)
       (timesteps (scan_step self (prev_token tokenIdxs i) st i tok)).
Proof.
  intros Hnth [[Hoff Hon] Hcl]. unfold scan_step.
  destruct (tok =? blank self)%Z eqn:Hb.
  - apply Z.eqb_eq in Hb. subst tok. split; [|assumption].
    split; [assumption|].
    intros Hf. destruct (Hon Hf) as [f [Hhd Hiff]]. exists f.
    split; [assumption|]. intros p. rewrite Hiff. split.
    + intros [[H1 H2] H3]. repeat split; (lia || assumption).
    + intros [[H1 H2] H3]. repeat split; try assumption; try lia.
      destruct (Nat.eq_dec p i) as [->|]; [congruence | lia].
  - apply Z.eqb_neq in Hb.
    assert (Hi : nth_error tokenIdxs i <> Some (blank self))
      by (rewrite Hnth; congruence).
    destruct (wordFound st) eqn:Hf.
    + destruct (Hon eq_refl) as [f [Hhd Hiff]].
      assert (Hfi : f < i).
      { assert (Hin : In f (wordFrames st)).
        { destruct (wordFrames st); [discriminate|].
          inversion Hhd. left. reflexivity. }
        apply Hiff in Hin. lia. }
      assert (Happend :
               open_run self tokenIdxs (S i)
                 (mkScan (timesteps st) (wordFrames st ++ [i]) true)).
      { split; [discriminate|]. intros _. exists f.
        cbn [wordFrames]. split.
        - destruct (wordFrames st); [discriminate | exact Hhd].
        - intros p. rewrite in_app_iff, Hiff. cbn [In]. split.
          + intros [[[H1 H2] H3]|[<-|[]]].
            * repeat split; (lia || assumption).
            * split; [lia | assumption].
          + intros [[H1 H2] H3].
            destruct (Nat.eq_dec p i) as [->|];
              [right; left; reflexivity|].
            left. repeat split; (lia || assumption). }
      assert (Hclose : tok = silence self ->
                       closed_run self tokenIdxs (wordFrames st)).
      { intros ->. exists f, i. repeat split; try assumption; apply Hiff;
          assumption. }
      destruct (tok =? prev_token tokenIdxs i)%Z,
        (tok =? silence self)%Z eqn:Hs;
        cbn [negb andb timesteps wordFrames wordFound];
        try (split; [exact Happend | assumption]).
      all: apply Z.eqb_eq in Hs.
      all: split; [split; [reflexivity | discriminate]|].
      all: apply Forall_app; split; [assumption|].
      all: constructor; [apply Hclose; assumption | constructor].
    + pose proof (Hoff eq_refl) as Hnil.
      assert (Hidle : open_run self tokenIdxs (S i) st).
      { split; [intros _; exact Hnil | intros H; congruence]. }
      assert (Hstart :
               open_run self tokenIdxs (S i)
                 (mkScan (timesteps st) (wordFrames st ++ [i]) true)).
      { split; [discriminate|]. intros _. exists i.
        cbn [wordFrames]. rewrite Hnil. cbn [app hd_error].
        split; [reflexivity|]. intros p. cbn [In]. split.
        - intros [<-|[]]. split; [lia | assumption].
        - intros [H1 H2]. left. lia. }
      destruct (tok =? prev_token tokenIdxs i)%Z,
        (tok =? silence self)%Z;
        cbn [negb andb timesteps wordFrames wordFound];
        first [ split; [exact Hidle | assumption]
              | split; [exact Hstart | assumption] ].
Qed.

End RunsAreBlocks.

(** X1.  Every frame of every emitted run indexes a token of the alignment
    that is neither the blank nor the silence token; an alignment made of
    blank and silence tokens only gives no run. *)
Theorem runs_hold_regular_frames (self : W2lKenLMDecoder)
  (tokenIdxs : list Z) :
  exists runs,
    _getWordsFrames self tokenIdxs = Ok runs
    /\ (forall run p, In run runs -> In p run ->
                      regular_frame self tokenIdxs p)
    /\ ((forall tok, In tok tokenIdxs ->
                     tok = blank self \/ tok = silence self) ->
        runs = []).
Proof.
  destruct (@scan_total self tokenIdxs
              (fun _ st => frames_regular self tokenIdxs st
                           /\ runs_nonempty st))
    as [st [Hrun [[_ Hreg] [_ Hne]]]].
  - intros i tok st Hnth [Hr Hn]. split.
    + apply scan_step_regular; assumption.
    + apply scan_step_nonempty; assumption.
  - repeat split; try constructor. discriminate.
  - exists (timesteps st). split; [assumption|].
    assert (Hall : forall run p, In run (timesteps st) -> In p run ->
                                 regular_frame self tokenIdxs p).
    { intros run p Hin Hp. rewrite Forall_forall in Hreg.
      specialize (Hreg _ Hin). rewrite Forall_forall in Hreg.
      exact (Hreg _ Hp). }
    split; [exact Hall|].
    intros Honly. destruct (timesteps st) as [|run runs]; [reflexivity|].
    exfalso. inversion Hne as [|? ? Hrne _]; subst.
    destruct run as [|p run]; [congruence|].
    destruct (Hall (p :: run) p (or_introl eq_refl) (or_introl eq_refl))
      as [tok [Hnth [Hb Hs]]].
    apply nth_error_In in Hnth. destruct (Honly tok Hnth); contradiction.
Qed.

(** X2.  Read run after run, the frames of the emitted runs strictly
    increase, and each is a valid index of the alignment: runs are in
    alignment order, do not overlap, and no frame is reported twice. *)
Theorem runs_increase (self : W2lKenLMDecoder) (tokenIdxs : list Z) :
  exists runs,
    _getWordsFrames self tokenIdxs = Ok runs
    /\ StronglySorted lt (List.concat runs)
    /\ Forall (fun p => p < List.length tokenIdxs) (List.concat runs).
Proof.
  destruct (@scan_total self tokenIdxs frames_sorted)
    as [st [Hrun [Hs Hb]]].
  - intros i tok st _. apply scan_step_sorted.
  - split; constructor.
  - exists (timesteps st). split; [assumption|]. split.
    + eapply sorted_app_left, Hs.
    + apply Forall_app in Hb. tauto.
Qed.

(** X3.  The scan emits at most as many runs as the alignment holds
    silence tokens. *)
Theorem runs_bounded_by_silences (self : W2lKenLMDecoder)
  (tokenIdxs : list Z) :
  exists runs,
    _getWordsFrames self tokenIdxs = Ok runs
    /\ List.length runs <= count_occ Z.eq_dec tokenIdxs (silence self).
Proof.
  destruct (@scan_total self tokenIdxs (runs_counted self tokenIdxs))
    as [st [Hrun Hc]].
  - intros i tok st. apply scan_step_counted.
  - unfold runs_counted. cbn. lia.
  - exists (timesteps st). split; [assumption|].
    unfold runs_counted in Hc. rewrite firstn_all in Hc. exact Hc.
Qed.

(** X4.  Every emitted run is a block of the alignment: it starts at its
    first frame [f], a silence token at some later frame [s] closes it, and
    its frames are exactly the frames from [f] up to [s] that do not hold the
    blank token. *)
Theorem runs_are_blocks (self : W2lKenLMDecoder) (tokenIdxs : list Z) :
  exists runs,
    _getWordsFrames self tokenIdxs = Ok runs
    /\ Forall (closed_run self tokenIdxs) runs.
Proof.
  destruct (@scan_total self tokenIdxs
              (fun i st => open_run self tokenIdxs i st
                           /\ Forall (closed_run self tokenIdxs)
                                     (timesteps st)))
    as [st [Hrun [_ Hcl]]].
  - intros i tok st. apply scan_step_runs.
  - split; [split; [reflexivity | discriminate] | constructor].
  - exists (timesteps st). split; assumption.
Qed.

(** * The hypothesis string splits back into its words *)

Lemma join_space_cons (w w' : string) (ws : list string) :
  Py.join space (w :: w' :: ws)
  = (w ++ String " "%char (Py.join space (w' :: ws)))%string.
Proof. reflexivity. Qed.

Lemma narrow_join_words (ws : list string) :
  Forall split_word ws -> Py.narrow (Py.join space ws) = Py.join space ws.
Proof.
  induction 1 as [|w ws [Hne Hsp] Hws IH]; [reflexivity|].
  destruct (no_whitespace_narrow _ Hsp) as [Hn _].
  destruct ws as [|w' ws]; [exact Hn|].
  rewrite join_space_cons, narrow_app_space, Hn, IH. reflexivity.
Qed.

Lemma split_join_words (ws : list string) :
  Forall split_word ws -> Py.split (Py.join space ws) = ws.
Proof.
  intros H. unfold Py.split. rewrite narrow_join_words by exact H.
  induction H as [|w ws [Hne Hsp] Hws IH]; [reflexivity|].
  destruct (no_whitespace_narrow _ Hsp) as [_ Ha].
  destruct ws as [|w' ws].
  - cbn [Py.join]. rewrite split_from_word by exact Ha.
    cbn [String.append]. destruct w; [congruence | reflexivity].
  - rewrite join_space_cons, split_from_space by reflexivity.
    rewrite IH, split_from_word by exact Ha.
    cbn [String.append]. destruct w; [congruence | reflexivity].
Qed.

Lemma all_chars_join_space (p : ascii -> bool) (ws : list string) :
  p " "%char = true ->
  Forall (fun w => all_chars p w = true) ws ->
  all_chars p (Py.join space ws) = true.
Proof.
  intros Hsp. induction 1 as [|w ws Hw Hws IH]; [reflexivity|].
  destruct ws as [|w' ws]; [exact Hw|].
  rewrite join_space_cons, all_chars_app. cbn [all_chars].
  rewrite Hw, Hsp, IH. reflexivity.
Qed.

Lemma assembled_words_split (pieces : list string) :
  Forall split_word (process_word_piece pieces)
  /\ Forall (fun w => no_underscore w = true) (process_word_piece pieces).
Proof.
  pose proof (assembled_words_are_clean pieces) as H.
  split; (eapply Forall_impl; [|exact H]); cbn beta;
    intros w (Hne & Hu & Hs); [split; assumption | assumption].
Qed.

(** X5.  In sub-word mode the hypothesis string splits back, on
    whitespace, into exactly the assembled words; it holds no underscore, and
    assembling it once more leaves the words unchanged. *)
Theorem subword_string_splits_back (self : W2lKenLMDecoder)
  (res : DecodeResult.t) (pieces : list string) :
  _subwords self = true ->
  word_entries self res = Ok pieces ->
  exists h,
    hypothesis_words self res = Ok h
    /\ Py.split h = process_word_piece pieces
    /\ no_underscore h = true
    /\ process_word_piece [h] = process_word_piece pieces.
Proof.
  intros Hsub Hent.
  destruct (assembled_words_split pieces) as [Hw Hu].
  exists (Py.join space (process_word_piece pieces)).
  assert (Hsplit : Py.split (Py.join space (process_word_piece pieces))
                   = process_word_piece pieces)
    by (apply split_join_words, Hw).
  assert (Hfree : no_underscore (Py.join space (process_word_piece pieces))
                  = true)
    by (apply all_chars_join_space; [reflexivity | exact Hu]).
  split; [unfold hypothesis_words; rewrite Hsub, Hent; reflexivity|].
  split; [exact Hsplit|]. split; [exact Hfree|].
  unfold process_word_piece at 1. cbn [Py.join].
  rewrite replace_absent by exact Hfree. exact Hsplit.
Qed.

Lemma subword_string_splits_back_witness :
  exists h,
    hypothesis_words Fixture.subword_decoder
      (DecodeResult.mk 0 [0; 1; -1; 2; 3]%Z []) = Ok h
    /\ Py.split h
       = process_word_piece ["hel"; "lo_"; "wor"; "ld_"]%string
    /\ no_underscore h = true
    /\ process_word_piece [h]
       = process_word_piece ["hel"; "lo_"; "wor"; "ld_"]%string.
Proof.
  apply (@subword_string_splits_back Fixture.subword_decoder
           (DecodeResult.mk 0 [0; 1; -1; 2; 3]%Z [])
           ["hel"; "lo_"; "wor"; "ld_"]%string).
  - reflexivity.
  - reflexivity.
Defined.

(** X6.  In word mode, when the dictionary entries looked up are non-empty
    and free of whitespace, the hypothesis string splits back into exactly
    those entries, one per non-negative word id and in the order of the ids;
    negative ids leave no trace. *)
Theorem word_string_splits_back (self : W2lKenLMDecoder)
  (res : DecodeResult.t) (entries : list string) :
  _subwords self = false ->
  word_entries self res = Ok entries ->
  Forall split_word entries ->
  exists h,
    hypothesis_words self res = Ok h
    /\ Py.split h = entries
    /\ Forall2 (fun x entry =>
                  Dictionary.get_entry (_wordDict self) x = Ok entry)
               (filter (fun x => (0 <=? x)%Z) (DecodeResult.words res))
               entries
    /\ List.length (Py.split h)
       = List.length (filter (fun x => (0 <=? x)%Z) (DecodeResult.words res)).
Proof.
  intros Hsub Hent Hw.
  pose proof (mapM_Forall2 _ _ Hent) as Hall.
  exists (Py.join space entries).
  split; [unfold hypothesis_words; rewrite Hsub, Hent; reflexivity|].
  rewrite (split_join_words Hw).
  split; [reflexivity|]. split; [exact Hall|].
  symmetry. exact (Forall2_length Hall).
Qed.

Lemma word_string_splits_back_witness :
  exists h,
    hypothesis_words Fixture.decoder
      (DecodeResult.mk 0 [-1; 0; -1; 0]%Z []) = Ok h
    /\ Py.split h = ["ab"; "ab"]%string
    /\ Forall2 (fun x entry =>
                  Dictionary.get_entry (_wordDict Fixture.decoder) x
                  = Ok entry)
               (filter (fun x => (0 <=? x)%Z) [-1; 0; -1; 0]%Z)
               ["ab"; "ab"]%string
    /\ List.length (Py.split h)
       = List.length (filter (fun x => (0 <=? x)%Z) [-1; 0; -1; 0]%Z).
Proof.
  apply (@word_string_splits_back Fixture.decoder
           (DecodeResult.mk 0 [-1; 0; -1; 0]%Z [])
           ["ab"; "ab"]%string).
  - reflexivity.
  - reflexivity.
  - repeat constructor; discriminate.
Defined.

(** * Further properties of the construction *)

Lemma foldM_total (A S : Type) (body : S -> A -> result S) (l : list A) :
  (forall x, In x l -> forall s, exists s', body s x = Ok s') ->
  forall s, exists s', foldM body l s = Ok s'.
Proof.
  induction l as [|x l IH]; intros Hbody s; cbn [foldM].
  - exists s. reflexivity.
  - destruct (Hbody x (or_introl eq_refl) s) as [s' ->]. cbn [bind].
    apply IH. intros y Hy. apply Hbody. right. assumption.
Qed.

Lemma foldM_collect (A S B : Type) (body : S -> A -> result S)
  (proj : S -> list B) (Q : A -> list B -> Prop) (l : list A) :
  (forall s x s', body s x = Ok s' ->
                  exists added, proj s' = proj s ++ added /\ Q x added) ->
  forall s s',
    foldM body l s = Ok s' ->
    exists adds, proj s' = proj s ++ List.concat adds /\ Forall2 Q l adds.
Proof.
  intros Hbody. induction l as [|x l IH]; intros s s' H; cbn [foldM] in H.
  - inversion H; subst. exists []. cbn. rewrite app_nil_r.
    split; [reflexivity | constructor].
  - destruct (body s x) as [s1|e] eqn:Hx; cbn [bind] in H; [|discriminate].
    destruct (Hbody _ _ _ Hx) as [added [Hp HQ]].
    destruct (IH _ _ H) as [adds [Hp' HQ']].
    exists (added :: adds). split; [|constructor; assumption].
    rewrite Hp', Hp. cbn [List.concat]. rewrite app_assoc. reflexivity.
Qed.

Lemma foldM_invariant (A S : Type) (body : S -> A -> result S)
  (I : S -> Prop) (l : list A) :
  (forall s x s', body s x = Ok s' -> I s -> I s') ->
  forall s s', foldM body l s = Ok s' -> I s -> I s'.
Proof.
  intros Hbody. induction l as [|x l IH]; intros s s' H Hs;
    cbn [foldM] in H.
  - inversion H; subst. assumption.
  - destruct (body s x) as [s1|e] eqn:Hx; cbn [bind] in H; [|discriminate].
    eapply IH; [exact H|]. eapply Hbody; eassumption.
Qed.

Lemma foldM_raises_with (A S : Type) (body : S -> A -> result S)
  (e : exn) (l : list A) (x : A) :
  In x l -> (forall s, body s x = Raise e) ->
  (forall s y e', In y l -> body s y = Raise e' -> e' = e) ->
  forall s, foldM body l s = Raise e.
Proof.
  induction l as [|y l IH]; cbn [foldM In]; [tauto|].
  intros Hin Hx Hall s.
  destruct (body s y) as [s'|e'] eqn:Hy; cbn [bind].
  - destruct Hin as [->|Hin]; [rewrite Hx in Hy; discriminate|].
    apply IH; [assumption | assumption|].
    intros s0 z e0 Hz. apply Hall. right. assumption.
  - f_equal. eapply Hall; [left; reflexivity | exact Hy].
Qed.

Lemma Forall2_flat_map (A B C : Type) (R : B -> C -> Prop)
  (f : A -> list B) (l : list A) (adds : list (list C)) :
  Forall2 (fun x ys => Forall2 R (f x) ys) l adds ->
  Forall2 R (flat_map f l) (List.concat adds).
Proof.
  induction 1 as [|x ys l adds Hx _ IH]; cbn [flat_map List.concat].
  - constructor.
  - apply Forall2_app; assumption.
Qed.

Lemma index_same_position (l : list string) (x y : string) (i : nat) :
  Py.index l x = Ok i -> Py.index l y = Ok i -> x = y.
Proof.
  intros Hx Hy.
  apply index_first_position in Hx. apply index_first_position in Hy.
  destruct Hx as [Hx _], Hy as [Hy _]. congruence.
Qed.

Lemma contains_nat_In (x : nat) (l : list nat) :
  Py.contains_nat x l = false <-> ~ In x l.
Proof.
  unfold Py.contains_nat. split.
  - intros H Hin.
    assert (Ht : existsb (Nat.eqb x) l = true)
      by (apply existsb_exists; exists x; split;
          [assumption | apply Nat.eqb_refl]).
    congruence.
  - intros Hn. destruct (existsb (Nat.eqb x) l) eqn:E; [|reflexivity].
    apply existsb_exists in E. destruct E as [y [Hy Heq]].
    apply Nat.eqb_eq in Heq. subst. contradiction.
Qed.

Lemma resolve_blank_absent (vocabulary : list string) :
  ~ In "<ctc_blank>"%string vocabulary -> ~ In "<s>"%string vocabulary ->
  resolve_blank vocabulary = Raise ValueError.
Proof.
  intros H1 H2. rewrite (proj2 (resolve_blank_cases vocabulary) H1).
  apply index_of_absent, H2.
Qed.

Lemma resolve_silence_absent (vocabulary : list string) :
  ~ In "<sep>"%string vocabulary -> ~ In "|"%string vocabulary ->
  ~ In "</s>"%string vocabulary ->
  resolve_silence vocabulary = Raise ValueError.
Proof.
  intros H1 H2 H3.
  rewrite (proj2 (proj2 (resolve_silence_cases vocabulary)) H1 H2).
  apply index_of_absent, H3.
Qed.

Lemma resolve_blank_present (vocabulary : list string) :
  In "<ctc_blank>"%string vocabulary \/ In "<s>"%string vocabulary ->
  exists b, resolve_blank vocabulary = Ok b.
Proof.
  intros H.
  destruct (in_dec string_dec "<ctc_blank>"%string vocabulary) as [Hc|Hc].
  - rewrite (proj1 (resolve_blank_cases vocabulary) Hc).
    apply index_of_member, Hc.
  - rewrite (proj2 (resolve_blank_cases vocabulary) Hc).
    apply index_of_member. tauto.
Qed.

Lemma resolve_silence_present (vocabulary : list string) :
  In "<sep>"%string vocabulary \/ In "|"%string vocabulary
  \/ In "</s>"%string vocabulary ->
  exists s, resolve_silence vocabulary = Ok s.
Proof.
  intros H.
  destruct (resolve_silence_cases vocabulary) as [H1 [H2 H3]].
  destruct (in_dec string_dec "<sep>"%string vocabulary) as [Hc|Hc].
  - rewrite (H1 Hc). apply index_of_member, Hc.
  - destruct (in_dec string_dec "|"%string vocabulary) as [Hp|Hp].
    + rewrite (H2 Hc Hp). apply index_of_member, Hp.
    + rewrite (H3 Hc Hp). apply index_of_member. tauto.
Qed.

Lemma resolve_blank_Ok (vocabulary : list string) (b : nat) :
  resolve_blank vocabulary = Ok b ->
  In "<ctc_blank>"%string vocabulary \/ In "<s>"%string vocabulary.
Proof.
  intros H.
  destruct (in_dec string_dec "<ctc_blank>"%string vocabulary) as [Hc|Hc];
    [left; assumption|].
  destruct (in_dec string_dec "<s>"%string vocabulary) as [Hs|Hs];
    [right; assumption|].
  rewrite resolve_blank_absent in H by assumption. discriminate.
Qed.

Lemma resolve_silence_Ok (vocabulary : list string) (s : nat) :
  resolve_silence vocabulary = Ok s ->
  In "<sep>"%string vocabulary \/ In "|"%string vocabulary
  \/ In "</s>"%string vocabulary.
Proof.
  intros H.
  destruct (in_dec string_dec "<sep>"%string vocabulary) as [H1|H1];
    [tauto|].
  destruct (in_dec string_dec "|"%string vocabulary) as [H2|H2]; [tauto|].
  destruct (in_dec string_dec "</s>"%string vocabulary) as [H3|H3];
    [tauto|].
  rewrite resolve_silence_absent in H by assumption. discriminate.
Qed.

Lemma truthy_Some (s : option string) :
  truthy s = true <-> exists path, s = Some path /\ path <> EmptyString.
Proof.
  split.
  - destruct s as [[|c path]|]; cbn; try discriminate.
    intros _. eexists. split; [reflexivity | discriminate].
  - intros [path [-> Hne]]. destruct path; [congruence | reflexivity].
Qed.

Lemma Forall2_In_right (A B : Type) (R : A -> B -> Prop) (l : list A)
  (l' : list B) (y : B) :
  Forall2 R l l' -> In y l' -> exists x, In x l /\ R x y.
Proof.
  induction 1 as [|a b l l' Hab _ IH]; cbn [In]; [tauto|].
  intros [->|Hin].
  - exists a. split; [left; reflexivity | assumption].
  - destruct (IH Hin) as [x [Hx HR]]. exists x. split; [right|]; assumption.
Qed.

Lemma Forall2_singletons (A B C : Type) (R : B -> C -> Prop) (g : A -> B)
  (l : list A) (adds : list (list C)) :
  Forall2 (fun x ys => exists e, ys = [e] /\ R (g x) e) l adds ->
  Forall2 R (map g l) (List.concat adds).
Proof.
  induction 1 as [|x ys l adds [e [-> He]] _ IH]; cbn [map List.concat].
  - constructor.
  - cbn [app]. constructor; assumption.
Qed.

Section TrieConstruction.

Variable lower : string -> string.
Variable vocabulary : list string.
Variable wordDict : Dictionary.t.
Variable languageModel : KenLM.t.

Lemma spelling_inserted (unkWord : nat) (wordIdx : Z) (score : float)
  (trie trie' : Trie.t) (spelling : list string) :
  _initializeTrie_spelling lower vocabulary unkWord wordIdx score trie
    spelling = Ok trie' ->
  exists idxs,
    trie' = Trie.insert trie idxs wordIdx score
    /\ Forall2 (fun token i => first_position vocabulary (lower token) i)
               spelling idxs
    /\ ~ In unkWord idxs.
Proof.
  unfold _initializeTrie_spelling. intros H.
  destruct (spelling_indices lower vocabulary spelling) as [idxs|] eqn:Hi;
    cbn [bind] in H; [|discriminate].
  destruct (Py.contains_nat unkWord idxs) eqn:Hc; cbn in H; [discriminate|].
  inversion H; subst. exists idxs. split; [reflexivity|]. split.
  - apply mapM_Forall2 in Hi.
    eapply Forall2_impl; [|exact Hi]. cbn beta.
    intros token i. apply index_first_position.
  - apply contains_nat_In, Hc.
Qed.

Lemma spelling_accepted (unkWord : nat) (wordIdx : Z) (score : float)
  (spelling : list string) :
  Py.index vocabulary "<unk>" = Ok unkWord ->
  (forall token, In token spelling ->
                 In (lower token) vocabulary
                 /\ lower token <> "<unk>"%string) ->
  forall trie,
  exists trie',
    _initializeTrie_spelling lower vocabulary unkWord wordIdx score trie
      spelling = Ok trie'.
Proof.
  intros Hunk Hall trie. unfold _initializeTrie_spelling.
  destruct (@mapM_total _ _
              (fun token => Py.index vocabulary (lower token)) spelling)
    as [idxs Hi].
  { apply Forall_forall. intros token Hin.
    apply index_of_member, Hall, Hin. }
  unfold spelling_indices. rewrite Hi. cbn [bind].
  assert (Hc : Py.contains_nat unkWord idxs = false).
  { apply contains_nat_In. intros Hin.
    apply mapM_Forall2 in Hi.
    destruct (@Forall2_In_right _ _ _ _ _ unkWord Hi Hin)
      as [token [Ht Hidx]].
    apply (proj2 (Hall token Ht)).
    exact (index_same_position _ _ _ Hidx Hunk). }
  rewrite Hc. cbn. eexists. reflexivity.
Qed.

Lemma spelling_error_kind (unkWord : nat) (wordIdx : Z) (score : float)
  (spelling : list string) (trie : Trie.t) (e : exn) :
  (forall token, In token spelling -> In (lower token) vocabulary) ->
  _initializeTrie_spelling lower vocabulary unkWord wordIdx score trie
    spelling = Raise e ->
  e = AssertionError.
Proof.
  intros Hall H. unfold _initializeTrie_spelling in H.
  destruct (@mapM_total _ _
              (fun token => Py.index vocabulary (lower token)) spelling)
    as [idxs Hi].
  { apply Forall_forall. intros token Hin.
    apply index_of_member, Hall, Hin. }
  unfold spelling_indices in H. rewrite Hi in H. cbn [bind] in H.
  destruct (Py.contains_nat unkWord idxs); cbn in H; congruence.
Qed.

Lemma spelling_with_unk (unkWord : nat) (wordIdx : Z) (score : float)
  (spelling : list string) (token : string) (trie : Trie.t) :
  Py.index vocabulary "<unk>" = Ok unkWord ->
  (forall token, In token spelling -> In (lower token) vocabulary) ->
  In token spelling -> lower token = "<unk>"%string ->
  _initializeTrie_spelling lower vocabulary unkWord wordIdx score trie
    spelling = Raise AssertionError.
Proof.
  intros Hunk Hall Hin Htok.
  destruct (@spelling_raises lower vocabulary unkWord wordIdx score
              spelling token Hunk Hin (or_intror Htok) trie) as [e He].
  rewrite He. f_equal. eapply spelling_error_kind; eassumption.
Qed.

Lemma initializeTrie_accepts (silence : Z) (lexicon : LEXICON) :
  In "<unk>"%string vocabulary ->
  ~ has_unresolvable_token lower vocabulary lexicon ->
  exists trie,
    _initializeTrie lower silence wordDict vocabulary languageModel lexicon
    = Ok trie.
Proof.
  intros Hunk Hgood. unfold _initializeTrie.
  destruct (index_of_member _ _ Hunk) as [unkWord Hu]. rewrite Hu.
  cbn [bind].
  match goal with
  | |- exists t, bind (foldM ?body ?l ?s0) _ = _ =>
      assert (Hall : forall x, In x l ->
                               forall s1, exists s', body s1 x = Ok s');
        [| destruct (@foldM_total _ _ body l Hall s0) as [t Ht] ]
  end.
  - intros [word spellings] Hw tr. unfold _initializeTrie_word.
    cbn [fst snd]. apply foldM_total.
    intros spelling Hs tr'. apply spelling_accepted; [assumption|].
    intros token Ht.
    destruct (in_dec string_dec (lower token) vocabulary) as [Hin|Hout].
    + split; [assumption|]. intros Heq. apply Hgood.
      exists word, spellings, spelling, token.
      repeat split; try assumption. right. assumption.
    + exfalso. apply Hgood.
      exists word, spellings, spelling, token.
      repeat split; try assumption. left. assumption.
  - rewrite Ht. cbn [bind]. eexists. reflexivity.
Qed.

Lemma initializeTrie_contents (silence : Z) (lexicon : LEXICON)
  (trie : Trie.t) :
  _initializeTrie lower silence wordDict vocabulary languageModel lexicon
  = Ok trie ->
  Forall2 (trie_entry_of lower vocabulary wordDict languageModel)
          (spellings_of lexicon) (Trie.entries trie)
  /\ Trie.rootIdx trie = silence
  /\ Trie.maxChildren trie = List.length vocabulary
  /\ Trie.smearing trie = Some SmearMAX.
Proof.
  unfold _initializeTrie. intros H.
  destruct (Py.index vocabulary "<unk>") as [unkWord|] eqn:Hu;
    cbn [bind] in H; [|discriminate].
  match type of H with
  | bind (foldM ?body ?l ?s) _ = _ =>
      destruct (foldM body l s) as [t|] eqn:Hf; cbn [bind] in H;
        [|discriminate]
  end.
  inversion H; subst trie. cbn [Trie.smear Trie.entries Trie.rootIdx
                                 Trie.maxChildren Trie.smearing].
  split; [|split; [|split; [|reflexivity]]].
  - pose proof (fun Hstep =>
                  @foldM_collect _ _ _ _ (@Trie.entries)
                    (fun entry added =>
                       Forall2 (trie_entry_of lower vocabulary wordDict
                                  languageModel)
                               (map (fun spelling => (fst entry, spelling))
                                    (snd entry)) added)
                    _ Hstep _ _ Hf) as Hcol.
    lapply Hcol; clear Hcol.
    + intros [adds [Hent Hadds]].
      cbn [Trie.new Trie.entries app] in Hent. rewrite Hent.
      unfold spellings_of. apply Forall2_flat_map. exact Hadds.
    + intros s entry s' Hbody. unfold _initializeTrie_word in Hbody.
      pose proof (fun Hstep =>
                    @foldM_collect _ _ _ _ (@Trie.entries)
                      (fun spelling added =>
                         exists e,
                           added = [e]
                           /\ trie_entry_of lower vocabulary wordDict
                                languageModel (fst entry, spelling) e)
                      _ Hstep _ _ Hbody) as Hcol.
      lapply Hcol; clear Hcol.
      * intros [adds [Hent Hadds]].
        exists (List.concat adds). split; [assumption|].
        apply (@Forall2_singletons _ _ _
                 (trie_entry_of lower vocabulary wordDict languageModel)
                 (fun spelling => (fst entry, spelling))).
        exact Hadds.
      * intros s0 spelling s1 Hsp.
        destruct (spelling_inserted _ _ _ _ _ Hsp)
          as [idxs [-> [Hpos Hno]]].
        exists [(idxs,
                 Dictionary.get_index wordDict (fst entry),
                 snd (KenLM.score languageModel
                        (KenLM.start languageModel false)
                        (Dictionary.get_index wordDict (fst entry))))].
        split; [reflexivity|]. eexists. split; [reflexivity|].
        unfold trie_entry_of. cbn [fst snd].
        repeat split; try assumption.
        intros unk' Hunk'. rewrite Hu in Hunk'. inversion Hunk'; subst.
        assumption.
  - refine (@foldM_invariant _ _ _ (fun t => Trie.rootIdx t = silence)
              _ _ _ _ Hf eq_refl).
    intros s entry s' Hbody.
    refine (@foldM_invariant _ _ _ (fun t => Trie.rootIdx t = silence)
              _ _ _ _ Hbody).
    intros s0 spelling s1 Hsp Hs0.
    destruct (spelling_inserted _ _ _ _ _ Hsp) as [idxs [-> _]].
    exact Hs0.
  - refine (@foldM_invariant _ _ _
              (fun t => Trie.maxChildren t = List.length vocabulary)
              _ _ _ _ Hf eq_refl).
    intros s entry s' Hbody.
    refine (@foldM_invariant _ _ _
              (fun t => Trie.maxChildren t = List.length vocabulary)
              _ _ _ _ Hbody).
    intros s0 spelling s1 Hsp Hs0.
    destruct (spelling_inserted _ _ _ _ _ Hsp) as [idxs [-> _]].
    exact Hs0.
Qed.

End TrieConstruction.

Section ConstructionOutcomes.

Variable lower : string -> string.
Variable load_words : string -> LEXICON.
Variable create_word_dict : LEXICON -> Dictionary.t.
Variable KenLM_new : string -> Dictionary.t -> KenLM.t.

Local Abbreviation init :=
  (__init__ lower load_words create_word_dict KenLM_new).

Lemma init_shape (vocabulary : list string)
  (lmFile lexicon : option string) (lw ws ss : float) (subwords : bool)
  (self : W2lKenLMDecoder) :
  init vocabulary lmFile lexicon lw ws ss subwords = Ok self ->
  exists lmPath lexPath b s tr,
    lmFile = Some lmPath /\ lexicon = Some lexPath
    /\ truthy lmFile && truthy lexicon = true
    /\ resolve_blank vocabulary = Ok b
    /\ resolve_silence vocabulary = Ok s
    /\ _initializeTrie lower (Z.of_nat s)
         (create_word_dict (load_words lexPath)) vocabulary
         (KenLM_new lmPath (create_word_dict (load_words lexPath)))
         (load_words lexPath) = Ok tr
    /\ self
       = mkDecoder 1 0.02 subwords (Z.of_nat b) (Z.of_nat s)
           (create_word_dict (load_words lexPath))
           (mkLexiconDecoder
              (mkOptions 15 (Z.of_nat (List.length vocabulary)) 25.0
                         lw ws neg_infinity ss false CTC)
              tr (KenLM_new lmPath (create_word_dict (load_words lexPath)))
              (Z.of_nat s) (Z.of_nat b)
              (Dictionary.get_index
                 (create_word_dict (load_words lexPath)) "<unk>")
              [] false).
Proof.
  unfold __init__. intros H.
  destruct (truthy lmFile && truthy lexicon) eqn:Ht; cbn [py_assert bind] in H;
    [|discriminate].
  destruct lmFile as [lmPath|], lexicon as [lexPath|]; try discriminate.
  destruct (resolve_blank vocabulary) as [b|] eqn:Hb; cbn [bind] in H;
    [|discriminate].
  destruct (resolve_silence vocabulary) as [s|] eqn:Hs; cbn [bind] in H;
    [|discriminate].
  destruct (_initializeTrie _ _ _ _ _ _) as [tr|] eqn:Htr; cbn [bind] in H;
    [|discriminate].
  inversion H; subst.
  exists lmPath, lexPath, b, s, tr. repeat split; assumption.
Qed.

Lemma init_steps (vocabulary : list string) (lmPath lexPath : string)
  (lw ws ss : float) (subwords : bool) (b s : nat) :
  lmPath <> EmptyString -> lexPath <> EmptyString ->
  resolve_blank vocabulary = Ok b ->
  resolve_silence vocabulary = Ok s ->
  init vocabulary (Some lmPath) (Some lexPath) lw ws ss subwords
  = bind (_initializeTrie lower (Z.of_nat s)
            (create_word_dict (load_words lexPath)) vocabulary
            (KenLM_new lmPath (create_word_dict (load_words lexPath)))
            (load_words lexPath))
         (fun tr =>
            Ok (mkDecoder 1 0.02 subwords (Z.of_nat b) (Z.of_nat s)
                  (create_word_dict (load_words lexPath))
                  (mkLexiconDecoder
                     (mkOptions 15 (Z.of_nat (List.length vocabulary)) 25.0
                                lw ws neg_infinity ss false CTC)
                     tr
                     (KenLM_new lmPath
                        (create_word_dict (load_words lexPath)))
                     (Z.of_nat s) (Z.of_nat b)
                     (Dictionary.get_index
                        (create_word_dict (load_words lexPath)) "<unk>")
                     [] false))).
Proof.
  intros Hlm Hlex Hb Hs. unfold __init__.
  destruct lmPath; [congruence|]. destruct lexPath; [congruence|].
  cbn [truthy andb py_assert bind]. rewrite Hb. cbn [bind]. rewrite Hs.
  reflexivity.
Qed.

(** X7.  A constructor call returns a decoder exactly when both paths are
    non-empty strings, the vocabulary holds a blank name (["<ctc_blank>"] or
    ["<s>"]), a silence name (["<sep>"], ["|"] or ["</s>"]) and ["<unk>"],
    and every spelling token of the lexicon lower-cases to a vocabulary entry
    other than ["<unk>"]. *)
Theorem construction_succeeds_iff (vocabulary : list string)
  (lmFile lexicon : option string) (lw ws ss : float) (subwords : bool) :
  (exists self, init vocabulary lmFile lexicon lw ws ss subwords = Ok self)
  <-> well_configured lower load_words vocabulary lmFile lexicon.
Proof.
  split.
  - intros [self H].
    assert (Hno : forall lexPath,
               lexicon = Some lexPath ->
               ~ has_unresolvable_token lower vocabulary
                   (load_words lexPath)).
    { intros lexPath -> Hbad.
      destruct (@init_raises lower load_words create_word_dict KenLM_new
                  vocabulary lmFile lexPath lw ws ss subwords Hbad)
        as [e He].
      congruence. }
    destruct (init_shape _ _ _ _ _ _ _ H)
      as (lmPath & lexPath & b & s & tr & -> & -> & Ht & Hb & Hs & Htr & _).
    apply andb_true_iff in Ht. destruct Ht as [Ht1 Ht2].
    apply truthy_Some in Ht1. destruct Ht1 as [p1 [E1 N1]].
    apply truthy_Some in Ht2. destruct Ht2 as [p2 [E2 N2]].
    inversion E1; inversion E2; subst p1 p2.
    exists lmPath, lexPath.
    repeat split; try reflexivity; try assumption.
    + eapply resolve_blank_Ok, Hb.
    + eapply resolve_silence_Ok, Hs.
    + unfold _initializeTrie in Htr.
      destruct (in_dec string_dec "<unk>"%string vocabulary) as [Hi|Hi];
        [assumption|].
      rewrite (index_of_absent _ _ Hi) in Htr. discriminate.
    + apply Hno. reflexivity.
  - intros (lmPath & lexPath & -> & -> & N1 & N2 & Hb & Hs & Hu & Hgood).
    destruct (resolve_blank_present _ Hb) as [b Eb].
    destruct (resolve_silence_present _ Hs) as [s Es].
    rewrite (init_steps _ lw ws ss subwords N1 N2 Eb Es).
    destruct (@initializeTrie_accepts lower vocabulary
                (create_word_dict (load_words lexPath))
                (KenLM_new lmPath (create_word_dict (load_words lexPath)))
                (Z.of_nat s) (load_words lexPath) Hu Hgood) as [tr ->].
    cbn [bind]. eexists. reflexivity.
Qed.

Lemma foldM_raise_origin (A S : Type) (body : S -> A -> result S)
  (l : list A) (e : exn) :
  forall s, foldM body l s = Raise e ->
            exists s0 x, In x l /\ body s0 x = Raise e.
Proof.
  induction l as [|y l IH]; intros s H; cbn [foldM] in H; [discriminate|].
  destruct (body s y) as [s'|e'] eqn:Hy; cbn [bind] in H.
  - destruct (IH _ H) as [s0 [x [Hx Hb]]].
    exists s0, x. split; [right|]; assumption.
  - inversion H; subst. exists s, y. split; [left; reflexivity | assumption].
Qed.

Lemma initializeTrie_asserts (vocabulary : list string) (silence : Z)
  (wordDict : Dictionary.t) (languageModel : KenLM.t) (lexicon : LEXICON) :
  all_tokens_known lower vocabulary lexicon ->
  spells_unk lower lexicon ->
  _initializeTrie lower silence wordDict vocabulary languageModel lexicon
  = Raise AssertionError.
Proof.
  intros Hknown (word & spellings & spelling & token & Hw & Hs & Ht & Hu).
  unfold _initializeTrie.
  assert (Hin : In "<unk>"%string vocabulary)
    by (rewrite <- Hu; eapply Hknown; eassumption).
  destruct (index_of_member _ _ Hin) as [unkWord Hunk]. rewrite Hunk.
  cbn [bind].
  match goal with
  | |- bind ?m _ = _ => assert (Hr : m = Raise AssertionError)
  end.
  { apply (@foldM_raises_with _ _ _ AssertionError lexicon
             (word, spellings) Hw).
    - intros tr. unfold _initializeTrie_word. cbn [fst snd].
      apply (@foldM_raises_with _ _ _ AssertionError spellings spelling Hs).
      + intros tr'. eapply spelling_with_unk; try eassumption.
        intros tok Htok. eapply Hknown; eassumption.
      + intros tr' sp e' Hsp He'.
        eapply spelling_error_kind; [|exact He'].
        intros tok Htok. eapply Hknown; eassumption.
    - intros tr [w sps] e' Hy He'. unfold _initializeTrie_word in He'.
      cbn [fst snd] in He'.
      destruct (foldM_raise_origin _ _ _ He') as [tr0 [sp [Hsp Hb]]].
      eapply spelling_error_kind; [|exact Hb].
      intros tok Htok. eapply Hknown; eassumption. }
  rewrite Hr. reflexivity.
Qed.

(** X8.  Which exception a failing constructor call raises.  A missing or
    empty language-model or lexicon path gives [AssertionError], whatever the
    vocabulary.  With both paths given: no blank name, no silence name, or no
    ["<unk>"] in the vocabulary gives [ValueError]; a lexicon whose tokens
    are all known but one of which lower-cases to ["<unk>"] gives
    [AssertionError]. *)
Theorem construction_error_kinds (vocabulary : list string)
  (lmFile lexicon : option string) (lw ws ss : float) (subwords : bool) :
  (truthy lmFile && truthy lexicon = false ->
   init vocabulary lmFile lexicon lw ws ss subwords = Raise AssertionError)
  /\ (truthy lmFile && truthy lexicon = true ->
      ~ In "<ctc_blank>"%string vocabulary ->
      ~ In "<s>"%string vocabulary ->
      init vocabulary lmFile lexicon lw ws ss subwords = Raise ValueError)
  /\ (truthy lmFile && truthy lexicon = true ->
      In "<ctc_blank>"%string vocabulary \/ In "<s>"%string vocabulary ->
      ~ In "<sep>"%string vocabulary -> ~ In "|"%string vocabulary ->
      ~ In "</s>"%string vocabulary ->
      init vocabulary lmFile lexicon lw ws ss subwords = Raise ValueError)
  /\ (truthy lmFile && truthy lexicon = true ->
      In "<ctc_blank>"%string vocabulary \/ In "<s>"%string vocabulary ->
      In "<sep>"%string vocabulary \/ In "|"%string vocabulary
      \/ In "</s>"%string vocabulary ->
      ~ In "<unk>"%string vocabulary ->
      init vocabulary lmFile lexicon lw ws ss subwords = Raise ValueError)
  /\ (forall lexPath,
         lexicon = Some lexPath ->
         truthy lmFile && truthy lexicon = true ->
         In "<ctc_blank>"%string vocabulary \/ In "<s>"%string vocabulary ->
         In "<sep>"%string vocabulary \/ In "|"%string vocabulary
         \/ In "</s>"%string vocabulary ->
         all_tokens_known lower vocabulary (load_words lexPath) ->
         spells_unk lower (load_words lexPath) ->
         init vocabulary lmFile lexicon lw ws ss subwords
         = Raise AssertionError).
Proof.
  assert (Hpaths : truthy lmFile && truthy lexicon = true ->
                   exists lmPath lexPath,
                     lmFile = Some lmPath /\ lexicon = Some lexPath
                     /\ lmPath <> EmptyString /\ lexPath <> EmptyString).
  { intros Ht. apply andb_true_iff in Ht. destruct Ht as [H1 H2].
    apply truthy_Some in H1. destruct H1 as [p1 [-> N1]].
    apply truthy_Some in H2. destruct H2 as [p2 [-> N2]].
    exists p1, p2. repeat split; assumption. }
  split; [|split; [|split; [|split]]].
  - intros Ht. unfold __init__. rewrite Ht. reflexivity.
  - intros Ht H1 H2.
    destruct (Hpaths Ht) as (lmPath & lexPath & -> & -> & N1 & N2).
    unfold __init__. rewrite Ht. cbn [py_assert bind].
    rewrite resolve_blank_absent by assumption. reflexivity.
  - intros Ht Hb H1 H2 H3.
    destruct (Hpaths Ht) as (lmPath & lexPath & -> & -> & N1 & N2).
    destruct (resolve_blank_present _ Hb) as [b Eb].
    unfold __init__. rewrite Ht. cbn [py_assert bind]. rewrite Eb.
    cbn [bind]. rewrite resolve_silence_absent by assumption. reflexivity.
  - intros Ht Hb Hs Hu.
    destruct (Hpaths Ht) as (lmPath & lexPath & -> & -> & N1 & N2).
    destruct (resolve_blank_present _ Hb) as [b Eb].
    destruct (resolve_silence_present _ Hs) as [s Es].
    rewrite (init_steps _ lw ws ss subwords N1 N2 Eb Es).
    unfold _initializeTrie. rewrite (index_of_absent _ _ Hu). reflexivity.
  - intros lexPath0 E Ht Hb Hs Hknown Hunk.
    destruct (Hpaths Ht) as (lmPath & lexPath & -> & E' & N1 & N2).
    rewrite E' in E. inversion E; subst lexPath0. subst lexicon.
    destruct (resolve_blank_present _ Hb) as [b Eb].
    destruct (resolve_silence_present _ Hs) as [s Es].
    rewrite (init_steps _ lw ws ss subwords N1 N2 Eb Es).
    rewrite (initializeTrie_asserts _ _ _ Hknown Hunk). reflexivity.
Qed.

(** X9.  The trie of a constructed decoder holds one entry per spelling of
    the lexicon, in lexicon order: the tokens of the spelling at the first
    vocabulary position of their lower-cased form (never the position of
    ["<unk>"]), the word's id as label and the language model's score of the
    word from its start state.  The trie is rooted at the silence index,
    sized by the vocabulary and smeared with [MAX]. *)
Theorem trie_holds_every_spelling (vocabulary : list string)
  (lmFile : option string) (lexPath : string) (lw ws ss : float)
  (subwords : bool) (self : W2lKenLMDecoder) :
  init vocabulary lmFile (Some lexPath) lw ws ss subwords = Ok self ->
  Forall2 (trie_entry_of lower vocabulary (_wordDict self)
             (lm (_decoder self)))
          (spellings_of (load_words lexPath))
          (Trie.entries (trie (_decoder self)))
  /\ Trie.rootIdx (trie (_decoder self)) = silence self
  /\ Trie.maxChildren (trie (_decoder self)) = List.length vocabulary
  /\ Trie.smearing (trie (_decoder self)) = Some SmearMAX.
Proof.
  intros H.
  destruct (init_shape _ _ _ _ _ _ _ H)
    as (lmPath & lexPath' & b & s & tr & _ & E & _ & _ & _ & Htr & ->).
  inversion E; subst lexPath'.
  cbn [_wordDict _decoder lm trie silence].
  exact (initializeTrie_contents _ _ _ _ _ _ Htr).
Qed.

(** X10.  In a constructed decoder the blank and silence indices are two
    different valid positions of the vocabulary, the flashlight decoder is
    given the same two indices, unknown words score minus infinity, and one
    hypothesis is kept per item. *)
Theorem constructed_decoder_is_consistent (vocabulary : list string)
  (lmFile lexicon : option string) (lw ws ss : float) (subwords : bool)
  (self : W2lKenLMDecoder) :
  init vocabulary lmFile lexicon lw ws ss subwords = Ok self ->
  blank self <> silence self
  /\ (0 <= blank self < Z.of_nat (List.length vocabulary))%Z
  /\ (0 <= silence self < Z.of_nat (List.length vocabulary))%Z
  /\ blank_token_idx (_decoder self) = blank self
  /\ sil_token_idx (_decoder self) = silence self
  /\ unk_token_idx (_decoder self)
     = Dictionary.get_index (_wordDict self) "<unk>"
  /\ unk_score (options (_decoder self)) = neg_infinity
  /\ _nbest self = 1.
Proof.
  intros H.
  destruct (init_shape _ _ _ _ _ _ _ H)
    as (lmPath & lexPath & b & s & tr & _ & _ & _ & Hb & Hs & _ & ->).
  cbn [blank silence _decoder blank_token_idx sil_token_idx unk_token_idx
       _wordDict options unk_score _nbest].
  assert (Hbl : b < List.length vocabulary).
  { unfold resolve_blank in Hb.
    destruct (Py.contains "<ctc_blank>" vocabulary);
      apply index_first_position in Hb; destruct Hb as [Hb _];
      apply nth_error_Some; congruence. }
  assert (Hsl : s < List.length vocabulary).
  { unfold resolve_silence in Hs.
    destruct (Py.contains "<sep>" vocabulary);
      [|destruct (Py.contains "|" vocabulary)];
      apply index_first_position in Hs; destruct Hs as [Hs _];
      apply nth_error_Some; congruence. }
  repeat split; try reflexivity; try lia.
  intros Heq. apply Nat2Z.inj in Heq.
  exact (resolved_tokens_differ _ Hb Hs Heq).
Qed.

End ConstructionOutcomes.

Lemma trie_holds_every_spelling_witness :
  Forall2 (trie_entry_of Fixture.lower Fixture.vocabulary
             (_wordDict Fixture.decoder) (lm (_decoder Fixture.decoder)))
          (spellings_of (Fixture.load_words "words.lexicon"))
          (Trie.entries (trie (_decoder Fixture.decoder)))
  /\ Trie.rootIdx (trie (_decoder Fixture.decoder))
     = silence Fixture.decoder
  /\ Trie.maxChildren (trie (_decoder Fixture.decoder))
     = List.length Fixture.vocabulary
  /\ Trie.smearing (trie (_decoder Fixture.decoder)) = Some SmearMAX.
Proof.
  apply (@trie_holds_every_spelling Fixture.lower Fixture.load_words
           Fixture.create_word_dict Fixture.KenLM_new Fixture.vocabulary
           (Some "lm.bin"%string) "words.lexicon"%string
           2%float (-1)%float 0%float false Fixture.decoder).
  reflexivity.
Defined.

Lemma constructed_decoder_is_consistent_witness :
  blank Fixture.decoder <> silence Fixture.decoder
  /\ (0 <= blank Fixture.decoder
      < Z.of_nat (List.length Fixture.vocabulary))%Z
  /\ (0 <= silence Fixture.decoder
      < Z.of_nat (List.length Fixture.vocabulary))%Z
  /\ blank_token_idx (_decoder Fixture.decoder) = blank Fixture.decoder
  /\ sil_token_idx (_decoder Fixture.decoder) = silence Fixture.decoder
  /\ unk_token_idx (_decoder Fixture.decoder)
     = Dictionary.get_index (_wordDict Fixture.decoder) "<unk>"
  /\ unk_score (options (_decoder Fixture.decoder)) = neg_infinity
  /\ _nbest Fixture.decoder = 1.
Proof.
  apply (@constructed_decoder_is_consistent Fixture.lower
           Fixture.load_words Fixture.create_word_dict Fixture.KenLM_new
           Fixture.vocabulary (Some "lm.bin"%string)
           (Some "words.lexicon"%string)
           2%float (-1)%float 0%float false Fixture.decoder).
  reflexivity.
Defined.

(** * Decoding a batch *)

Section DecodeBatch.

Variable LexiconDecoder_decode :
  LexiconDecoder -> Z -> nat -> nat -> list DecodeResult.t.
Variable self : W2lKenLMDecoder.
Variable emissions : Emissions.

Local Abbreviation hypotheses :=
  (_decodeLexicon LexiconDecoder_decode self emissions).

Lemma decode_from (bs : list nat) :
  (forall b, In b bs -> Forall (words_known self) (hypotheses b)) ->
  forall acc,
  exists lss wfs tss,
    foldM (decode_body LexiconDecoder_decode self emissions) bs acc
    = Ok (_DecodeResult.mk
            (_DecodeResult.label_sequences acc ++ lss)
            (_DecodeResult.wordsFrames acc ++ wfs)
            (_DecodeResult.scores acc
             ++ map (fun b => map DecodeResult.score (hypotheses b)) bs)
            (_DecodeResult.timesteps acc ++ tss))
    /\ Forall2 (fun b ws =>
                  Forall2 (fun res w => hypothesis_words self res = Ok w)
                          (hypotheses b) ws)
               bs lss
    /\ Forall2 (fun b runs => Forall2 (runs_of self) (hypotheses b) runs)
               bs wfs
    /\ Forall2 (Forall2 (intervals_of self)) wfs tss.
Proof.
  induction bs as [|b bs IH]; intros Hknown acc.
  - exists [], [], []. cbn [foldM map]. rewrite !app_nil_r.
    destruct acc. repeat split; constructor.
  - destruct (@post_process_from self (hypotheses b)
                (Hknown b (or_introl eq_refl)) (mkProcessed [] [] [] []))
      as [ws [wf [ts [Hpost [Hws [Hruns Hivs]]]]]].
    cbn [out_words out_wordsFrames out_scores out_timesteps app] in Hpost.
    cbn [foldM]. unfold decode_body at 1. unfold _postProcessHypothesis.
    rewrite Hpost. cbn [bind out_words out_wordsFrames out_scores
                          out_timesteps].
    match goal with
    | |- context [foldM _ bs ?acc'] =>
        destruct (IH (fun b' Hb' => Hknown b' (or_intror Hb')) acc')
          as [lss [wfs [tss [Hrun [Hl [Hr Hi]]]]]]
    end.
    exists (ws :: lss), (wf :: wfs), (ts :: tss). rewrite Hrun.
    cbn [_DecodeResult.label_sequences _DecodeResult.wordsFrames
         _DecodeResult.scores _DecodeResult.timesteps map].
    rewrite <- !app_assoc. cbn [app].
    repeat split; constructor; assumption.
Qed.

End DecodeBatch.

Lemma Forall2_Forall_right (A B : Type) (R : A -> B -> Prop) (P : B -> Prop)
  (l : list A) (l' : list B) :
  (forall x y, R x y -> P y) -> Forall2 R l l' -> Forall P l'.
Proof.
  intros H. induction 1; constructor; eauto.
Qed.

(** An item whose hypotheses name a word id outside the dictionary makes
    [decode] raise. *)
Lemma decode_raises_on_unknown_word :
  decode (fun _ _ _ _ => [DecodeResult.mk 0 [7]%Z [3; 3; 4; 1]%Z])
         Fixture.decoder batch_of_two
  = Raise ValueError.
Proof. reflexivity. Qed.

(** X11.  When the word ids of the hypotheses kept for every item are
    entries of the word dictionary, [decode] returns, for a batch of [B]
    items, four lists of [B] entries each.  Entry [b] holds the word strings
    and scores of the hypotheses kept for item [b], their frame runs and, run
    by run, their intervals; at most [_nbest] hypotheses are kept per
    item. *)
Theorem decode_returns_one_entry_per_item
  (LexiconDecoder_decode :
     LexiconDecoder -> Z -> nat -> nat -> list DecodeResult.t)
  (self : W2lKenLMDecoder) (emissions : Emissions) :
  (forall b, b < fst (fst (shape emissions)) ->
             Forall (words_known self)
                    (_decodeLexicon LexiconDecoder_decode self emissions b)) ->
  exists out,
    decode LexiconDecoder_decode self emissions = Ok out
    /\ Forall2 (fun b ws =>
                  Forall2 (fun res w => hypothesis_words self res = Ok w)
                          (_decodeLexicon LexiconDecoder_decode self
                             emissions b) ws)
               (seq 0 (fst (fst (shape emissions))))
               (_DecodeResult.label_sequences out)
    /\ _DecodeResult.scores out
       = map (fun b => map DecodeResult.score
                           (_decodeLexicon LexiconDecoder_decode self
                              emissions b))
             (seq 0 (fst (fst (shape emissions))))
    /\ Forall2 (fun b runs =>
                  Forall2 (runs_of self)
                          (_decodeLexicon LexiconDecoder_decode self
                             emissions b) runs)
               (seq 0 (fst (fst (shape emissions))))
               (_DecodeResult.wordsFrames out)
    /\ Forall2 (Forall2 (intervals_of self))
               (_DecodeResult.wordsFrames out) (_DecodeResult.timesteps out)
    /\ List.length (_DecodeResult.label_sequences out)
       = fst (fst (shape emissions))
    /\ List.length (_DecodeResult.wordsFrames out)
       = fst (fst (shape emissions))
    /\ List.length (_DecodeResult.scores out) = fst (fst (shape emissions))
    /\ List.length (_DecodeResult.timesteps out)
       = fst (fst (shape emissions))
    /\ Forall (fun ws => List.length ws <= _nbest self)
              (_DecodeResult.label_sequences out).
Proof.
  intros Hknown.
  destruct (@decode_from LexiconDecoder_decode self emissions
              (seq 0 (fst (fst (shape emissions))))
              (fun b Hb => Hknown b (proj2 (proj1 (in_seq _ _ _) Hb)))
              (_DecodeResult.mk [] [] [] []))
    as [lss [wfs [tss [Hrun [Hl [Hr Hi]]]]]].
  cbn [_DecodeResult.label_sequences _DecodeResult.wordsFrames
       _DecodeResult.scores _DecodeResult.timesteps app] in Hrun.
  eexists. split; [exact Hrun|].
  cbn [_DecodeResult.label_sequences _DecodeResult.wordsFrames
       _DecodeResult.scores _DecodeResult.timesteps].
  assert (Hw : List.length wfs = fst (fst (shape emissions)))
    by (rewrite <- (Forall2_length Hr); apply length_seq).
  repeat split; try assumption.
  - rewrite <- (Forall2_length Hl). apply length_seq.
  - rewrite length_map. apply length_seq.
  - rewrite <- (Forall2_length Hi). assumption.
  - refine (@Forall2_Forall_right _ _ _ _ _ _ _ Hl). cbn beta.
    intros b ws Hws.
    rewrite <- (Forall2_length Hws).
    unfold _decodeLexicon. apply firstn_le_length.
Qed.

Lemma decode_returns_one_entry_per_item_witness :
  exists out,
    decode two_hypotheses Fixture.decoder batch_of_two = Ok out
    /\ Forall2 (fun b ws =>
                  Forall2 (fun res w =>
                             hypothesis_words Fixture.decoder res = Ok w)
                          (_decodeLexicon two_hypotheses Fixture.decoder
                             batch_of_two b) ws)
               (seq 0 (fst (fst (shape batch_of_two))))
               (_DecodeResult.label_sequences out)
    /\ _DecodeResult.scores out
       = map (fun b => map DecodeResult.score
                           (_decodeLexicon two_hypotheses Fixture.decoder
                              batch_of_two b))
             (seq 0 (fst (fst (shape batch_of_two))))
    /\ Forall2 (fun b runs =>
                  Forall2 (runs_of Fixture.decoder)
                          (_decodeLexicon two_hypotheses Fixture.decoder
                             batch_of_two b) runs)
               (seq 0 (fst (fst (shape batch_of_two))))
               (_DecodeResult.wordsFrames out)
    /\ Forall2 (Forall2 (intervals_of Fixture.decoder))
               (_DecodeResult.wordsFrames out) (_DecodeResult.timesteps out)
    /\ List.length (_DecodeResult.label_sequences out)
       = fst (fst (shape batch_of_two))
    /\ List.length (_DecodeResult.wordsFrames out)
       = fst (fst (shape batch_of_two))
    /\ List.length (_DecodeResult.scores out)
       = fst (fst (shape batch_of_two))
    /\ List.length (_DecodeResult.timesteps out)
       = fst (fst (shape batch_of_two))
    /\ Forall (fun ws => List.length ws <= _nbest Fixture.decoder)
              (_DecodeResult.label_sequences out).
Proof.
  apply (@decode_returns_one_entry_per_item two_hypotheses Fixture.decoder
           batch_of_two).
  intros b _. constructor; [|constructor].
  exists ["ab"%string]. reflexivity.
Defined.

(** X12.  The address handed to flashlight for item [b] is the buffer
    address plus [b] times half of [strides[0]].  For a C-contiguous array of
    4-byte floats ([strides[0] = 4 * T * N]) this is [2 * b * T * N] bytes
    past the buffer start, which is the address of item [b]'s first emission
    only when [b], [T] or [N] is zero. *)
Theorem emissions_pointer_offset (emissions : Emissions) (b : nat) :
  strides0 emissions
  = (4 * (Z.of_nat (snd (fst (shape emissions)))
          * Z.of_nat (snd (shape emissions))))%Z ->
  emissionsPtr emissions b
  = (ctypes_data emissions
     + 2 * (Z.of_nat b * Z.of_nat (snd (fst (shape emissions)))
            * Z.of_nat (snd (shape emissions))))%Z
  /\ (emissionsPtr emissions b = item_address emissions b
      <-> b = 0 \/ snd (fst (shape emissions)) = 0
          \/ snd (shape emissions) = 0).
Proof.
  intros Hs. unfold emissionsPtr, item_address. rewrite Hs.
  set (T := Z.of_nat (snd (fst (shape emissions)))).
  set (N := Z.of_nat (snd (shape emissions))).
  assert (HT : (0 <= T)%Z) by (subst T; lia).
  assert (HN : (0 <= N)%Z) by (subst N; lia).
  replace (4 * (T * N))%Z with ((2 * (T * N)) * 2)%Z by lia.
  rewrite Z.div_mul by lia.
  split; [lia|]. split.
  - intros H.
    assert (Hz : (Z.of_nat b * (T * N) = 0)%Z) by lia.
    apply Z.mul_eq_0 in Hz. destruct Hz as [Hz|Hz]; [left; lia|].
    apply Z.mul_eq_0 in Hz. subst T N.
    destruct Hz; [right; left | right; right]; lia.
  - subst T N. intros [H|[H|H]]; rewrite H;
      change (Z.of_nat 0) with 0%Z; ring.
Qed.

Lemma emissions_pointer_offset_witness :
  emissionsPtr (mkEmissions (2, 5, 4) 4096 80) 1
  = (4096 + 2 * (Z.of_nat 1 * Z.of_nat 5 * Z.of_nat 4))%Z
  /\ (emissionsPtr (mkEmissions (2, 5, 4) 4096 80) 1
      = item_address (mkEmissions (2, 5, 4) 4096 80) 1
      <-> 1 = 0 \/ 5 = 0 \/ 4 = 0).
Proof.
  apply (@emissions_pointer_offset (mkEmissions (2, 5, 4) 4096 80) 1).
  reflexivity.
Defined.

(** * Languages *)

Lemma upper_char_idem (c : ascii) :
  Str.upper_char (Str.upper_char c) = Str.upper_char c.
Proof. destruct c as [[] [] [] [] [] [] [] []]; reflexivity. Qed.

Lemma upper_lower_char (c : ascii) :
  Str.upper_char (Fixture.lower_char c) = Str.upper_char c.
Proof. destruct c as [[] [] [] [] [] [] [] []]; reflexivity. Qed.

Lemma upper_char_hyphen (c : ascii) :
  Ascii.eqb (Str.upper_char c) "-"%char = Ascii.eqb c "-"%char.
Proof. destruct c as [[] [] [] [] [] [] [] []]; reflexivity. Qed.

Lemma upper_idem (s : string) : Str.upper (Str.upper s) = Str.upper s.
Proof.
  induction s as [|c s IH]; cbn [Str.upper]; [reflexivity|].
  rewrite upper_char_idem, IH. reflexivity.
Qed.

Lemma upper_lower (s : string) : Str.upper (Str.lower s) = Str.upper s.
Proof.
  unfold Str.lower.
  induction s as [|c s IH]; cbn [Str.upper Fixture.lower]; [reflexivity|].
  rewrite upper_lower_char, IH. reflexivity.
Qed.

Lemma upper_replace_hyphen (s : string) :
  Str.upper (Py.replace "-"%char "_"%string s)
  = Py.replace "-"%char "_"%string (Str.upper s).
Proof.
  induction s as [|c s IH]; cbn [Str.upper Py.replace]; [reflexivity|].
  rewrite upper_char_hyphen.
  destruct (Ascii.eqb c "-"%char) eqn:Hc.
  - cbn [String.append Str.upper]. rewrite IH. reflexivity.
  - cbn [Str.upper]. rewrite IH. reflexivity.
Qed.

Lemma replace_hyphen_idem (s : string) :
  Py.replace "-"%char "_"%string (Py.replace "-"%char "_"%string s)
  = Py.replace "-"%char "_"%string s.
Proof.
  induction s as [|c s IH]; cbn [Py.replace]; [reflexivity|].
  destruct (Ascii.eqb c "-"%char) eqn:Hc.
  - cbn [String.append Py.replace]. cbn. rewrite IH. reflexivity.
  - cbn [Py.replace]. rewrite Hc, IH. reflexivity.
Qed.

Lemma by_name_iff (key : string) (l : Language.t) :
  Language.by_name key = Some l <-> key = Language.name l.
Proof.
  unfold Language.by_name. split.
  - destruct (String.eqb key "EN_US") eqn:E1;
      [apply String.eqb_eq in E1; intros H; inversion H; subst; reflexivity|].
    destruct (String.eqb key "ES") eqn:E2;
      [apply String.eqb_eq in E2; intros H; inversion H; subst; reflexivity|].
    destruct (String.eqb key "PT_BR") eqn:E3;
      [apply String.eqb_eq in E3; intros H; inversion H; subst; reflexivity|].
    discriminate.
  - intros ->. destruct l; reflexivity.
Qed.

(** X13.  Every language is recovered by [parse] from its value, from its
    formatter name, from its member name and from itself; [check] accepts
    each of these, and every language is among the valid options. *)
Theorem language_round_trip (l : Language.t) :
  Language.parse (Language.OfStr (Language.value l)) = Some l
  /\ Language.parse (Language.OfStr (Language.asFormatter l)) = Some l
  /\ Language.parse (Language.OfStr (Language.name l)) = Some l
  /\ Language.parse (Language.OfLanguage l) = Some l
  /\ Language.check (Language.OfStr (Language.value l)) = true
  /\ In l Language.getValidOptions.
Proof.
  destruct l; repeat split; cbn; auto.
Qed.

(** X14.  On ASCII strings [parse] ignores letter case and does not tell a
    hyphen from an underscore: a string parses to a language exactly when
    its upper-cased form, hyphens turned into underscores, is the member
    name; anything that is neither a language nor a string parses to
    nothing. *)
Theorem language_parse_is_case_insensitive (s : string) :
  all_chars (fun c => nat_of_ascii c <? 128) s = true ->
  Language.parse (Language.OfStr (Str.upper s))
  = Language.parse (Language.OfStr s)
  /\ Language.parse (Language.OfStr (Str.lower s))
     = Language.parse (Language.OfStr s)
  /\ Language.parse (Language.OfStr (Py.replace "-"%char "_"%string s))
     = Language.parse (Language.OfStr s)
  /\ (forall l,
         Language.parse (Language.OfStr s) = Some l
         <-> Py.replace "-"%char "_"%string (Str.upper s)
             = Language.name l)
  /\ Language.check Language.OfOther = false.
Proof.
  intros _. cbn [Language.parse].
  rewrite upper_idem, upper_lower, upper_replace_hyphen, replace_hyphen_idem.
  repeat split; try reflexivity; apply by_name_iff.
Qed.

Lemma language_parse_is_case_insensitive_witness :
  Language.parse (Language.OfStr (Str.upper "pt-br"))
  = Language.parse (Language.OfStr "pt-br")
  /\ Language.parse (Language.OfStr (Str.lower "pt-br"))
     = Language.parse (Language.OfStr "pt-br")
  /\ Language.parse
       (Language.OfStr (Py.replace "-"%char "_"%string "pt-br"))
     = Language.parse (Language.OfStr "pt-br")
  /\ (forall l,
         Language.parse (Language.OfStr "pt-br") = Some l
         <-> Py.replace "-"%char "_"%string (Str.upper "pt-br")
             = Language.name l)
  /\ Language.check Language.OfOther = false.
Proof.
  apply (@language_parse_is_case_insensitive "pt-br"%string).
  reflexivity.
Defined.

(** The string ["pt-br"] parses to Brazilian Portuguese; ["fr"] to nothing. *)
Lemma language_parse_examples :
  Language.parse (Language.OfStr "pt-br") = Some Language.PT_BR
  /\ Language.parse (Language.OfStr "fr") = None.
Proof. split; reflexivity. Qed.
